(** * EnterpriseSearch: the filter engine and the registry client of [app.py]

    A shallow embedding of [filter_data] (app.py, lines 44-118) and of
    [get_cnpj_data] with its guarded call (lines 160-168 and 353-359),
    followed by the properties of the specification that concern them.

    Modelling conventions.
    - A [DataFrame] is its ordered column index together with its rows in
      positional order.  Every row carries its index label; a cell is read
      with [cells r !! c], where [None] is pandas' NaN (the value that
      [read_csv(dtype=str)] and [concat] produce for a missing cell).
    - pandas semantics are those of object-dtype text columns, the dtype
      [read_csv(dtype=str)] gives in pandas 1.x and 2.x: [astype(str)]
      turns a string into itself and NaN into the text ["nan"];
      [.str.lower()] lowers every cell; a boolean mask keeps the rows at
      which it is true, in order.
    - [filtros] is a [dict], iterated in insertion order: it is an
      association list here.  The keys of a [dict] are distinct; a theorem
      that needs this says so ([NoDup]).
    - Python's [str.lower] (Unicode aware) and the [re] engine behind
      [Series.str.contains] (whose default is [regex=True]) are library
      code: they are variables of the section.  [ascii_lower] and
      [literal_re] further down instantiate them on ASCII text and on
      patterns without metacharacters, for the computed examples. *)

From Stdlib Require Import String Ascii ZArith.
From stdpp Require Import base option list gmap strings pretty sorting.

(** ** Data model *)

(** One row of a table: its index label and its cells by column name. *)
Record Row := { label : nat; cells : gmap string string }.

(** [df.columns] and the rows of [df] in positional order. *)
Record DataFrame := { columns : list string; rows : list Row }.

(** The values a filter constraint is built from ([Optional[object]]). *)
Inductive scalar :=
  | SStr (s : string)
  | SInt (z : Z)
  | SBool (b : bool)
  | SNone.

(** A constraint is a single value, or a list, tuple or set of values
    (only membership in a collection is ever used). *)
Inductive constraint :=
  | Scalar (v : scalar)
  | Coll (vs : list scalar).

(** Labels of the debug trace ([steps]) with their row counts. *)
Inductive step_name :=
  | initial
  | skip_missing_col (col : string)
  | after_filter (col : string)
  | early_exit_empty
  | after_search (col : string)
  | search_col_missing (col : string).

Abbreviation step := (step_name * nat)%type.

(** Exceptions [filter_data] can raise on well-typed arguments: the pattern
    handed to [str.contains] does not compile. *)
Inductive filter_exn := re_error (pattern : string).

Inductive result (E A : Type) :=
  | Ok (a : A)
  | Raise (e : E).
Arguments Ok {E A} a.
Arguments Raise {E A} e.

(** What a call of [filter_data] yields: the returned table and the lines
    written to standard output by the debug loop. *)
Record outcome := { returned : DataFrame; stdout : list step }.

(** How the [for] loop over the filter entries ends: by the [return] inside
    it, or by running out of entries. *)
Inductive loop_exit :=
  | Returned (df2 : DataFrame)
  | Completed (df2 : DataFrame) (steps : list step).

Global Instance scalar_eq_dec : EqDecision scalar.
Proof. solve_decision. Defined.

Global Instance Row_eq_dec : EqDecision Row.
Proof. solve_decision. Defined.

Global Instance DataFrame_eq_dec : EqDecision DataFrame.
Proof. solve_decision. Defined.

(** ** pandas and Python primitives *)

(** [str(v)] *)
Definition py_str (v : scalar) : string :=
  match v with
  | SStr s => s
  | SInt z => pretty z
  | SBool true => "True"
  | SBool false => "False"
  | SNone => "None"
  end.

(** One cell under [astype(str)]. *)
Definition astype_str (cell : option string) : string :=
  match cell with
  | Some s => s
  | None => "nan"
  end.

(** [len(df)] *)
Definition len (df : DataFrame) : nat := length (rows df).

(** [df.empty]: some axis has length zero. *)
Definition empty (df : DataFrame) : bool :=
  bool_decide (columns df = [] ∨ rows df = []).

(** [df[mask]] for a boolean mask aligned with [df]. *)
Definition boolean_index (mask : Row → bool) (df : DataFrame) : DataFrame :=
  {| columns := columns df; rows := filter (λ r, mask r) (rows df) |}.

(** [df[col] == v] *)
Definition eq_mask (col v : string) (r : Row) : bool :=
  bool_decide (cells r !! col = Some v).

(** [df[col].isin(vals)] *)
Definition isin_mask (col : string) (vals : list string) (r : Row) : bool :=
  match cells r !! col with
  | Some x => bool_decide (x ∈ vals)
  | None => false
  end.

(** [df[col].str.contains(pat, na=False)] once [pat] is compiled: a missing
    cell takes the value of [na]. *)
Definition contains_mask (search : string → bool) (col : string) (r : Row) : bool :=
  match cells r !! col with
  | Some x => search x
  | None => false
  end.

(** Truthiness of an [Optional[str]]. *)
Definition truthy (s : option string) : bool :=
  match s with
  | Some s => negb (String.eqb s "")
  | None => false
  end.

(** The three [continue] tests on a constraint: [None], an empty list,
    tuple or set, the empty string. *)
Definition is_empty_filter (val : constraint) : bool :=
  match val with
  | Scalar SNone => true
  | Coll [] => true
  | Scalar (SStr "") => true
  | _ => false
  end.

Section FilterEngine.

(** Python's [str.lower]. *)
Variable lower : string → string.

(** [re.compile(pat)] followed by [.search(x) is not None]; [None] when
    the pattern is rejected with [re.error]. *)
Variable re_compile : string → option (string → bool).

(** Lowercase text of a constraint value: [str(v).lower()]. *)
Definition norm (v : scalar) : string := lower (py_str v).

(** The text a cell is compared by: [astype(str)] then [.str.lower()]. *)
Definition cell_norm (col : string) (r : Row) : string :=
  lower (astype_str (cells r !! col)).

Definition lower_row (col : string) (r : Row) : Row :=
  {| label := label r; cells := <[col := cell_norm col r]> (cells r) |}.

(** [df2[col] = df2[col].astype(str).str.lower()] *)
Definition lower_column (col : string) (df2 : DataFrame) : DataFrame :=
  {| columns := columns df2; rows := lower_row col <$> rows df2 |}.

(** Lines 79-87: normalise the column, then keep the matching rows. *)
Definition apply_filter (col : string) (val : constraint) (df2 : DataFrame)
  : DataFrame :=
  let df2 := lower_column col df2 in
  match val with
  | Coll vs =>
      let val_norm := norm <$> vs in
      boolean_index (isin_mask col val_norm) df2
  | Scalar v =>
      let v_norm := norm v in
      boolean_index (eq_mask col v_norm) df2
  end.

Definition record (debug : bool) (steps : list step) (s : step) : list step :=
  if debug then steps ++ [s] else steps.

(** Lines 63-96, the loop over [filtros.items()]. *)
Fixpoint filter_loop (debug : bool) (items : list (string * constraint))
    (df2 : DataFrame) (steps : list step) : loop_exit :=
  match items with
  | [] => Completed df2 steps
  | (col, val) :: items =>
      if is_empty_filter val then filter_loop debug items df2 steps
      else if bool_decide (col ∉ columns df2) then
        filter_loop debug items df2
          (record debug steps (skip_missing_col col, len df2))
      else
        let df2 := apply_filter col val df2 in
        let steps := record debug steps (after_filter col, len df2) in
        if empty df2 then
          (* steps.append(("early_exit_empty", 0)) is lost: the function
             returns before the trace is printed *)
          Returned df2
        else filter_loop debug items df2 steps
  end.

(** Lines 100-111, entered when both [column_for_search] and [query] are
    truthy. *)
Definition search_step (debug : bool) (column_for_search query : string)
    (exact_match : bool) (df2 : DataFrame) (steps : list step)
  : result filter_exn (DataFrame * list step) :=
  if bool_decide (column_for_search ∈ columns df2) then
    let q := lower query in
    let df2 := lower_column column_for_search df2 in
    if exact_match then
      let df2 := boolean_index (eq_mask column_for_search q) df2 in
      Ok (df2, record debug steps (after_search column_for_search, len df2))
    else
      match re_compile q with
      | Some search =>
          let df2 := boolean_index (contains_mask search column_for_search) df2 in
          Ok (df2, record debug steps (after_search column_for_search, len df2))
      | None => Raise (re_error q)
      end
  else
    Ok (df2, record debug steps (search_col_missing column_for_search, len df2)).

(** Lines 44-118.  [df.copy()] is [df] itself: tables are values, and the
    caller's table is out of reach of every later assignment to [df2]. *)
Definition filter_data (df : DataFrame)
    (filtros : option (list (string * constraint)))
    (column_for_search query : option string)
    (exact_match debug : bool) : result filter_exn outcome :=
  let df2 := df in
  let steps := if debug then [(initial, len df2)] else [] in
  match filter_loop debug (default [] filtros) df2 steps with
  | Returned df2 => Ok {| returned := df2; stdout := [] |}
  | Completed df2 steps =>
      match column_for_search, query with
      | Some col, Some q =>
          if truthy column_for_search && truthy query then
            match search_step debug col q exact_match df2 steps with
            | Ok (df2, steps) => Ok {| returned := df2; stdout := steps |}
            | Raise e => Raise e
            end
          else Ok {| returned := df2; stdout := steps |}
      | _, _ => Ok {| returned := df2; stdout := steps |}
      end
  end.

(** The table a call returns, whatever it printed. *)
Definition table_of (r : result filter_exn outcome) : result filter_exn DataFrame :=
  match r with
  | Ok o => Ok (returned o)
  | Raise e => Raise e
  end.

End FilterEngine.

(** ** Instances for computed examples *)

Definition lower_ascii (a : ascii) : ascii :=
  let n := nat_of_ascii a in
  if (65 <=? n)%nat && (n <=? 90)%nat then ascii_of_nat (n + 32) else a.

(** [str.lower] on ASCII text. *)
Fixpoint ascii_lower (s : string) : string :=
  match s with
  | EmptyString => EmptyString
  | String a s => String (lower_ascii a) (ascii_lower s)
  end.

Fixpoint occurs (pat s : string) : bool :=
  String.prefix pat s ||
  match s with
  | EmptyString => false
  | String _ s' => occurs pat s'
  end.

Definition metachar (a : ascii) : bool :=
  bool_decide (a ∈ list_ascii_of_string ".^$*+?{}[]\|()").

(** The [re] engine on patterns without metacharacters, where searching is
    plain substring search; any other pattern is rejected, which is what
    CPython does with ["("], the only such pattern used below. *)
Definition literal_re (pat : string) : option (string → bool) :=
  if existsb metachar (list_ascii_of_string pat) then None
  else Some (occurs pat).

Definition row (i : nat) (kvs : list (string * string)) : Row :=
  {| label := i; cells := list_to_map kvs |}.

(** ** Vocabulary of the properties *)

Section Vocabulary.

Variable lower : string → string.

(** The columns a complete run of the loop normalises, in order: those of
    the entries that are neither ignorable nor about a missing column. *)
Definition applied_columns (cols : list string)
    (items : list (string * constraint)) : list string :=
  (filter (λ e, is_empty_filter e.2 = false ∧ e.1 ∈ cols) items).*1.

(** The column the search step normalises, if it runs. *)
Definition searched_column (cols : list string)
    (column_for_search query : option string) : list string :=
  match column_for_search with
  | Some col =>
      if truthy column_for_search && truthy query && bool_decide (col ∈ cols)
      then [col] else []
  | None => []
  end.

Definition normalized_columns (cols : list string)
    (filtros : option (list (string * constraint)))
    (column_for_search query : option string) : list string :=
  applied_columns cols (default [] filtros)
    ++ searched_column cols column_for_search query.

(** A row after the columns [cs] were normalised one after the other. *)
Definition lower_cols (cs : list string) (r : Row) : Row :=
  foldl (λ r c, lower_row lower c r) r cs.

(** Two constraints that differ by letter case only.  For Python's
    [lower] the second premise of [cv_scalar] follows from the first
    (only the empty string has an empty lowercase form). *)
Inductive case_variant : constraint → constraint → Prop :=
  | cv_scalar s s' :
      lower s = lower s' → (s = "" ↔ s' = "") →
      case_variant (Scalar (SStr s)) (Scalar (SStr s'))
  | cv_coll vs vs' :
      Forall2 (λ v v', norm lower v = norm lower v') vs vs' →
      case_variant (Coll vs) (Coll vs').

(** The matching rule in the words of the specification: equal lowercase
    forms, or membership in the lowercase value set. *)
Definition lowercase_match (val : constraint) (cell_text : string) : Prop :=
  match val with
  | Scalar v => cell_text = norm lower v
  | Coll vs => cell_text ∈ norm lower <$> vs
  end.

Global Instance lowercase_match_dec val x : Decision (lowercase_match val x).
Proof. destruct val; simpl; apply _. Defined.

End Vocabulary.

(** ** Registry client *)

Module Registry.

#[local] Set Warnings "-register-all".

Inductive json :=
  | JNull
  | JBool (b : bool)
  | JNum (z : Z)
  | JStr (s : string)
  | JArr (items : list json)
  | JObj (fields : list (string * json)).

(** [{}] *)
Definition empty_record : json := JObj [].

(** The exceptions of the fetch, all of them subclasses of [Exception]:
    the transport failures of [requests.get] and the decoding failure of
    [resp.json()]. *)
Inductive py_exception :=
  | Timeout
  | ConnectionError
  | RequestException (detail : string)
  | JSONDecodeError.

(** What of an HTTP response the code reads; [body] is [None] when the
    payload is not JSON. *)
Record response := { status_code : nat; body : option json }.

Inductive message :=
  | erro_status (status : nat)          (* "Erro ao consultar BrasilAPI: status {..}" *)
  | erro_brasilapi (e : py_exception).  (* "Erro BrasilAPI: {e}" *)

(** Calls of [st.error], the user-visible channel. *)
Inductive ui_event := st_error (msg : message).

(** Computations that write to the page and may raise. *)
Definition M (A : Type) : Type :=
  list ui_event → result py_exception A * list ui_event.

Definition ret {A} (a : A) : M A := λ ui, (Ok a, ui).

Definition raise {A} (e : py_exception) : M A := λ ui, (Raise e, ui).

Definition bind {A B} (m : M A) (k : A → M B) : M B :=
  λ ui, match m ui with
        | (Ok a, ui') => k a ui'
        | (Raise e, ui') => (Raise e, ui')
        end.

(** [try: m  except Exception as e: h e] *)
Definition try_except {A} (m : M A) (h : py_exception → M A) : M A :=
  λ ui, match m ui with
        | (Ok a, ui') => (Ok a, ui')
        | (Raise e, ui') => h e ui'
        end.

Definition error (msg : message) : M unit :=
  λ ui, (Ok tt, ui ++ [st_error msg]).

Definition lift {A} (r : result py_exception A) : M A := λ ui, (r, ui).

Global Instance M_ret : MRet M := @ret.
Global Instance M_bind : MBind M := λ A B k m, bind m k.

Section Client.

(** The network: what [requests.get(url, timeout=10)] does for a URL,
    an answer or a raised transport failure. *)
Variable requests_get : string → result py_exception response.

Definition url_of (cnpj : string) : string :=
  "https://brasilapi.com.br/api/cnpj/v1/" +:+ cnpj.

(** [resp.json()] *)
Definition resp_json (resp : response) : M json :=
  match body resp with
  | Some j => ret j
  | None => raise JSONDecodeError
  end.

(** Lines 160-168. *)
Definition get_cnpj_data (cnpj : string) : M json :=
  let url := url_of cnpj in
  resp ← lift (requests_get url);
  if Nat.eqb (status_code resp) 200 then resp_json resp
  else error (erro_status (status_code resp));; mret empty_record.

(** Lines 355-359, the only call of [get_cnpj_data]. *)
Definition guarded_get_cnpj_data (cnpj_api : string) : M json :=
  try_except (get_cnpj_data cnpj_api)
    (λ e, error (erro_brasilapi e);; mret empty_record).

End Client.

End Registry.

(** ** Erasing the debug trace *)

(** A loop exit without its trace. *)
Definition erase (e : loop_exit) : loop_exit :=
  match e with
  | Returned df2 => Returned df2
  | Completed df2 _ => Completed df2 []
  end.

(** The working table a loop exit carries. *)
Definition exit_table (e : loop_exit) : DataFrame :=
  match e with
  | Returned df2 => df2
  | Completed df2 _ => df2
  end.

(** ** The claims that fail, in the words of the specification *)

(** Every returned row has, cell for cell, the values the row with the same
    label has in the input. *)
Definition cells_verbatim (df R : DataFrame) : Prop :=
  ∀ r', r' ∈ rows R →
    ∃ r, r ∈ rows df ∧ label r' = label r ∧ ∀ c, cells r' !! c = cells r !! c.

(** The returned rows are a subsequence of the input rows. *)
Definition rows_subsequence (df R : DataFrame) : Prop :=
  rows R `sublist_of` rows df.

(** ** Tables and collaborators of the examples *)

(** Three people; the second has no name (a null cell). *)
Definition people : DataFrame :=
  {| columns := ["NOME"; "UF"];
     rows := [ row 0 [("NOME", "Ana"); ("UF", "SP")];
               row 1 [("UF", "RJ")];
               row 2 [("NOME", "BRASIL"); ("UF", "sp")] ] |}.

(** [people] filtered by [{"UF": ["SP"]}]. *)
Definition people_sp : DataFrame :=
  {| columns := ["NOME"; "UF"];
     rows := [ row 0 [("NOME", "Ana"); ("UF", "sp")];
               row 2 [("NOME", "BRASIL"); ("UF", "sp")] ] |}.

(** [people] searched for ["ANA"] in ["NOME"], exact mode. *)
Definition people_ana : DataFrame :=
  {| columns := ["NOME"; "UF"];
     rows := [ row 0 [("NOME", "ana"); ("UF", "SP")] ] |}.

(** [people] searched for ["an"] in ["NOME"], contains mode. *)
Definition people_an : DataFrame :=
  {| columns := ["NOME"; "UF"];
     rows := [ row 0 [("NOME", "ana"); ("UF", "SP")];
               row 1 [("NOME", "nan"); ("UF", "RJ")] ] |}.

(** [people] filtered by [{"UF": ["RJ"]}]. *)
Definition people_rj : DataFrame :=
  {| columns := ["NOME"; "UF"];
     rows := [ row 1 [("UF", "rj")] ] |}.

(** A network that is down, and a registry that does not know the
    identifier. *)
Definition offline : string → result Registry.py_exception Registry.response :=
  λ _, Raise Registry.Timeout.

Definition not_found : string → result Registry.py_exception Registry.response :=
  λ _, Ok {| Registry.status_code := 404; Registry.body := None |}.

(** ** The rest of [app.py]

    A [string] holds the UTF-8 bytes of a Python [str]: equality, order
    (byte order is code-point order) and concatenation are those of the
    text.  Python's [\d] is Unicode aware; on ASCII text it matches ["0"]
    to ["9"] and nothing else.  [remove_non_digits] is
    [re.sub(r"\D", "", s)] on ASCII text, and the properties that depend on
    which characters are digits are stated for ASCII text ([is_ascii]);
    those that hold whichever characters are digits are stated for all. *)

(** *** [clean_cnpj_digits], lines 157-158 *)

Definition is_digit (a : ascii) : bool :=
  let n := nat_of_ascii a in (48 <=? n)%nat && (n <=? 57)%nat.

(** [re.sub(r"\D", "", s)] *)
Fixpoint remove_non_digits (s : string) : string :=
  match s with
  | EmptyString => EmptyString
  | String a s' =>
      if is_digit a then String a (remove_non_digits s') else remove_non_digits s'
  end.

(** [cnpj or ""] is the empty string for [None] (and for the empty string). *)
Definition clean_cnpj_digits (cnpj : option string) : string :=
  remove_non_digits (default "" cnpj).

Fixpoint digits_only (s : string) : bool :=
  match s with
  | EmptyString => true
  | String a s' => is_digit a && digits_only s'
  end.

(** A text of ASCII characters only. *)
Fixpoint is_ascii (s : string) : bool :=
  match s with
  | EmptyString => true
  | String a s' => (nat_of_ascii a <? 128)%nat && is_ascii s'
  end.

(** *** The identifier selector, lines 292-308 and 347-363 *)

(** [Series.unique()]: the distinct values in order of first appearance. *)
Definition unique (l : list string) : list string :=
  foldl (λ seen x, if bool_decide (x ∈ seen) then seen else seen ++ [x]) [] l.

Definition placeholder : string := "-- Selecione um CNPJ --".

(** A [dict] from display text to identifier, in insertion order. *)
Abbreviation dict := (list (string * string)).

(** [d.get(k)] *)
Fixpoint dict_get (d : dict) (k : string) : option string :=
  match d with
  | [] => None
  | (k', v) :: d' => if bool_decide (k' = k) then Some v else dict_get d' k
  end.

(** [if c_display not in cnpj_map: cnpj_map[c_display] = c_api] *)
Definition add_cnpj (cnpj_map : dict) (c : string) : dict :=
  let c_display := c in
  let c_api := clean_cnpj_digits (Some c) in
  if bool_decide (c_display ∈ cnpj_map.*1) then cnpj_map
  else cnpj_map ++ [(c_display, c_api)].

Section Selector.

(** Python's [str.strip]. *)
Variable strip : string → string.

(** [df["CNPJ"].dropna().astype(str).str.strip().unique().tolist()] *)
Definition cnpj_unique (df_filtrado : DataFrame) : list string :=
  unique (strip <$> omap (λ r, cells r !! "CNPJ") (rows df_filtrado)).

(** Lines 292-308: [st.session_state.cnpj_map]. *)
Definition cnpj_map_of (df_filtrado : DataFrame) : dict :=
  if bool_decide ("CNPJ" ∈ columns df_filtrado) then
    foldl add_cnpj [(placeholder, "")] (cnpj_unique df_filtrado)
  else [(placeholder, "")].

(** [st.session_state.cnpj_options = list(cnpj_map.keys())] *)
Definition cnpj_options_of (df_filtrado : DataFrame) : list string :=
  (cnpj_map_of df_filtrado).*1.

End Selector.

(** Lines 347-363: look the selected display text up and fetch.  [None] is
    the [st.info] branch, taken when the identifier is empty; only the
    [st.error] calls are kept in the page log. *)
Definition consulta_cnpj
    (requests_get : string → result Registry.py_exception Registry.response)
    (cnpj_map : dict) (cnpj_display : string) (ui : list Registry.ui_event)
  : option (result Registry.py_exception Registry.json * list Registry.ui_event) :=
  let cnpj_api := default "" (dict_get cnpj_map cnpj_display) in
  if String.eqb cnpj_api "" then None
  else Some (Registry.guarded_get_cnpj_data requests_get cnpj_api ui).

(** *** [load_all_data], lines 26-38 *)

(** [df[col] = v] for a scalar [v]: the column is overwritten, or appended
    when the table does not have it. *)
Definition set_column (col v : string) (df : DataFrame) : DataFrame :=
  {| columns := if bool_decide (col ∈ columns df) then columns df
                else columns df ++ [col];
     rows := (λ r, {| label := label r; cells := <[col := v]> (cells r) |})
               <$> rows df |}.

(** [pd.concat(dfs, ignore_index=True)]: the union of the columns in order
    of first appearance, the rows one table after the other, relabelled
    [0 .. n-1].  A cell a table does not have stays absent, that is NaN. *)
Definition concat (dfs : list DataFrame) : DataFrame :=
  {| columns := unique (mjoin (columns <$> dfs));
     rows := imap (λ i r, {| label := i; cells := cells r |})
               (mjoin (rows <$> dfs)) |}.

Section Loader.

(** What [pd.read_csv] raises. *)
Context {E : Type}.

(** [pd.read_csv(arquivo, sep=";", encoding="utf-8", dtype=str,
    low_memory=False)]: the file system and the parser. *)
Variable read_csv : string → result E DataFrame.

(** [Path(arquivo).name] *)
Variable path_name : string → string.

(** Line 32: [df["_arquivo"] = Path(arquivo).name]. *)
Definition stamp (arquivo : string) (df : DataFrame) : DataFrame :=
  set_column "_arquivo" (path_name arquivo) df.

(** The [for] loop of lines 30-33. *)
Fixpoint read_files (files : list string) : result E (list DataFrame) :=
  match files with
  | [] => Ok []
  | arquivo :: files =>
      match read_csv arquivo with
      | Raise e => Raise e
      | Ok df =>
          let df := stamp arquivo df in
          match read_files files with
          | Raise e => Raise e
          | Ok dfs => Ok (df :: dfs)
          end
      end
  end.

Definition load_all_data (files : list string) : result E DataFrame :=
  match read_files files with
  | Raise e => Raise e
  | Ok [] => Ok {| columns := []; rows := [] |}
  | Ok dfs => Ok (concat dfs)
  end.

End Loader.

(** *** [list_files], lines 9-22 *)

(** The glob pattern of lines 17-21. *)
Definition glob_pattern (extension : option string) (recursive : bool) : string :=
  match extension with
  | Some (String a e as extension) =>
      let ext := if Ascii.eqb a "." then extension else "." +:+ extension in
      if recursive then "**/*" +:+ ext else "*" +:+ ext
  | _ => if recursive then "**/*" else "*"
  end.

Section Files.

(** [Path(dir_path).rglob(pattern)], [p.is_file()], [str(p.resolve())]. *)
Variable rglob : string → string → list string.
Variable is_file : string → bool.
Variable resolve : string → string.

Definition list_files (dir_path : string) (extension : option string)
    (recursive : bool) : list string :=
  resolve <$> filter (λ p, is_file p) (rglob dir_path (glob_pattern extension recursive)).

End Files.

(** *** The sidebar and the [Buscar] button, lines 129-152 and 279-286 *)

Definition colunas_filtro : list string :=
  ["SITUAÇÃO ESPECIAL"; "DESCRIÇÃO"; "NOME SETOR"].

(** Line 147: the options of a multiselect, [sorted(df_all[col].dropna()
    .unique().tolist())]. *)
Definition opcoes (df_all : DataFrame) (col : string) : list string :=
  merge_sort (λ a b, String.leb a b) (unique (omap (λ r, cells r !! col) (rows df_all))).

(** Lines 143-152: one entry per fixed column, the selection of its
    multiselect or [None] when the table lacks the column. *)
Definition sidebar_filtros (df_all : DataFrame) (sel : string → list string)
  : list (string * constraint) :=
  (λ col, (col, if bool_decide (col ∈ columns df_all)
                then Coll (SStr <$> sel col) else Scalar SNone))
    <$> colunas_filtro.

(** [df.drop(columns=[col], errors="ignore")] *)
Definition drop_column (col : string) (df : DataFrame) : DataFrame :=
  {| columns := filter (λ c, c ≠ col) (columns df);
     rows := (λ r, {| label := label r; cells := delete col (cells r) |})
               <$> rows df |}.

Section Buscar.

Variable lower : string → string.
Variable re_compile : string → option (string → bool).

(** Lines 136-141 and 280-286.  Without a search column the text input and
    the radio are not shown: the query is empty and the mode exact. *)
Definition buscar (df_all : DataFrame) (sel : string → list string)
    (col_drop typed_query : string) (radio_exact : bool)
  : result filter_exn DataFrame :=
  let query := if String.eqb col_drop "" then "" else typed_query in
  let exact := if String.eqb col_drop "" then true else radio_exact in
  match filter_data lower re_compile df_all (Some (sidebar_filtros df_all sel))
          (if String.eqb col_drop "" then None else Some col_drop)
          (if String.eqb query "" then None else Some query)
          exact false with
  | Ok o => Ok (drop_column "_arquivo" (returned o))
  | Raise e => Raise e
  end.

End Buscar.

(** ** Collaborators of the further examples *)

(** A registry that knows the identifier, and one that answers 200 with a
    body that is not JSON. *)
Definition found : string → result Registry.py_exception Registry.response :=
  λ _, Ok {| Registry.status_code := 200;
             Registry.body := Some (Registry.JObj [("porte", Registry.JStr "DEMAIS")]) |}.

Definition garbled : string → result Registry.py_exception Registry.response :=
  λ _, Ok {| Registry.status_code := 200; Registry.body := None |}.

(** Two files on disk; any other path cannot be read. *)
Definition setor_a : DataFrame :=
  {| columns := ["CNPJ"; "UF"];
     rows := [ row 0 [("CNPJ", "12.345.678/0001-95"); ("UF", "SP")];
               row 1 [("UF", "RJ")] ] |}.

Definition setor_b : DataFrame :=
  {| columns := ["UF"; "NOME"];
     rows := [ row 0 [("UF", "MG"); ("NOME", "Ana")] ] |}.

Definition disk (arquivo : string) : result string DataFrame :=
  if String.eqb arquivo "a.csv" then Ok setor_a
  else if String.eqb arquivo "b.csv" then Ok setor_b
  else Raise ("No such file: " +:+ arquivo).

(** The table of the end-to-end scenario of the specification: no null
    cell. *)
Definition staff : DataFrame :=
  {| columns := ["SETOR"; "SIT"];
     rows := [ row 0 [("SETOR", "RH"); ("SIT", "Ativo")];
               row 1 [("SETOR", "TI"); ("SIT", "Ativo")];
               row 2 [("SETOR", "RH"); ("SIT", "Inativo")] ] |}.

(** A table with a column and no row. *)
Definition nobody : DataFrame := {| columns := ["NOME"]; rows := [] |}.

(** A directory with two CSV files, one of them in a subdirectory. *)
Definition pasta (dir_path pattern : string) : list string :=
  if String.eqb pattern "**/*.csv"
  then [dir_path +:+ "/a.csv"; dir_path +:+ "/2024/b.csv"] else [].

(** ** Vocabulary of the further properties *)

(** What the selector's map always satisfies: the placeholder first, no
    display text twice, every text mapped to its own digits. *)
Definition selector_ok (m : dict) : Prop :=
  head m = Some (placeholder, "")
  ∧ NoDup m.*1
  ∧ Forall (λ kv, kv.2 = clean_cnpj_digits (Some kv.1)) m.

(** Whether the loop ended by its [return]. *)
Definition is_returned (e : loop_exit) : bool :=
  match e with
  | Returned _ => true
  | Completed _ _ => false
  end.

(** The row counts of a trace. *)
Definition counts (steps : list step) : list nat := steps.*2.

(** A trace that opens with the initial count [n0], closes with the count
    [n], and whose counts never increase. *)
Definition well_traced (n0 : nat) (steps : list step) (n : nat) : Prop :=
  head steps = Some (initial, n0)
  ∧ last (counts steps) = Some n
  ∧ StronglySorted ge (counts steps).

Section MoreVocabulary.

Variable lower : string → string.

(** An entry the loop applies to a table with columns [cols]. *)
Definition entry_applies (cols : list string) (e : string * constraint) : Prop :=
  is_empty_filter e.2 = false ∧ e.1 ∈ cols.

(** A row that matches every applied entry. *)
Definition row_passes (cols : list string) (items : list (string * constraint))
    (r : Row) : Prop :=
  Forall (λ e, entry_applies cols e →
               lowercase_match lower e.2 (cell_norm lower e.1 r)) items.

(** A cell satisfies a constraint when it holds a text whose lowercase is
    the lowercase of the constraint's value, or of one of its values; a
    null cell, having no text, satisfies none.  Written from the cells,
    without the functions of the engine. *)
Definition cell_satisfies (val : constraint) (cell : option string) : Prop :=
  match cell, val with
  | Some x, Scalar v => lower x = lower (py_str v)
  | Some x, Coll vs => Exists (λ v, lower x = lower (py_str v)) vs
  | None, _ => False
  end.

(** A row whose cells satisfy every entry that is neither ignorable nor
    about a missing column. *)
Definition row_satisfies (cols : list string)
    (items : list (string * constraint)) (r : Row) : Prop :=
  Forall (λ e, is_empty_filter e.2 = false → e.1 ∈ cols →
               cell_satisfies e.2 (cells r !! e.1)) items.

Global Instance cell_satisfies_dec val cell : Decision (cell_satisfies val cell).
Proof. destruct cell, val; simpl; apply _. Defined.

Global Instance row_satisfies_dec cols items r :
  Decision (row_satisfies cols items r).
Proof. unfold row_satisfies. apply _. Defined.

Global Instance entry_applies_dec cols e : Decision (entry_applies cols e).
Proof. unfold entry_applies. apply _. Defined.

Global Instance row_passes_dec cols items r : Decision (row_passes cols items r).
Proof. unfold row_passes. apply _. Defined.

End MoreVocabulary.

(** * Properties of the filter engine *)

Section FilterProperties.

Variable lower : string → string.
Variable re_compile : string → option (string → bool).

Local Arguments apply_filter : simpl never.

Implicit Types (df R : DataFrame) (r : Row) (col : string)
  (val : constraint) (items : list (string * constraint))
  (steps : list step) (debug exact_match : bool).

(** *** Shape of the tables *)

Lemma apply_filter_columns col val df2 :
  columns (apply_filter lower col val df2) = columns df2.
Proof. by destruct val. Qed.

Lemma apply_filter_empty col val df2 :
  col ∈ columns df2 →
  empty (apply_filter lower col val df2)
  = bool_decide (rows (apply_filter lower col val df2) = []).
Proof.
  intros Hcol. unfold empty. rewrite apply_filter_columns.
  apply bool_decide_ext. split; [intros [Hc|Hr]|by right]; [|done].
  rewrite Hc in Hcol. by apply elem_of_nil in Hcol.
Qed.

Lemma loop_columns debug items df2 steps :
  columns (exit_table (filter_loop lower debug items df2 steps)) = columns df2.
Proof.
  revert df2 steps. induction items as [|[col val] items IH]; intros df2 steps.
  - done.
  - simpl. destruct (is_empty_filter val); [apply IH|].
    case_bool_decide; [apply IH|].
    destruct (empty _); simpl; [apply apply_filter_columns|].
    rewrite IH. apply apply_filter_columns.
Qed.

(** *** The trace never steers the computation *)

Lemma loop_erase debug items df2 steps :
  erase (filter_loop lower debug items df2 steps) = filter_loop lower false items df2 [].
Proof.
  revert df2 steps. induction items as [|[col val] items IH]; intros df2 steps.
  - done.
  - simpl. destruct (is_empty_filter val); [apply IH|].
    case_bool_decide; [apply IH|].
    destruct (empty _); [done|apply IH].
Qed.

Lemma loop_completed_erase debug items df df2 steps0 steps :
  filter_loop lower debug items df steps0 = Completed df2 steps →
  filter_loop lower false items df [] = Completed df2 [].
Proof. intros H. by rewrite <-(loop_erase debug items df steps0), H. Qed.

Lemma search_step_erase debug col q exact_match df2 steps :
  match search_step lower re_compile debug col q exact_match df2 steps,
        search_step lower re_compile false col q exact_match df2 [] with
  | Ok (d1, _), Ok (d2, _) => d1 = d2
  | Raise e1, Raise e2 => e1 = e2
  | _, _ => False
  end.
Proof.
  unfold search_step. case_bool_decide; [|done].
  destruct exact_match; [done|]. by destruct (re_compile _).
Qed.

Lemma table_of_debug df filtros cs q exact_match debug :
  table_of (filter_data lower re_compile df filtros cs q exact_match debug)
  = table_of (filter_data lower re_compile df filtros cs q exact_match false).
Proof.
  unfold filter_data. cbv zeta. cbn match.
  pose proof (loop_erase debug (default [] filtros) df
                (if debug then [(initial, len df)] else [])) as He.
  destruct (filter_loop lower debug _ _ _) as [d|d st]; unfold erase in He; rewrite <-He;
    [done|].
  destruct cs as [col|], q as [s|]; try done.
  destruct (truthy _ && truthy _); [|done].
  pose proof (search_step_erase debug col s exact_match d st) as Hs.
  destruct (search_step _ _ debug _ _ _ _ _) as [[d1 s1]|e1],
           (search_step _ _ false _ _ _ _ _) as [[d2 s2]|e2];
    simpl; by subst.
Qed.

(** *** Running the loop over a concatenation *)

Lemma loop_app debug items1 items2 df2 steps :
  filter_loop lower debug (items1 ++ items2) df2 steps
  = match filter_loop lower debug items1 df2 steps with
    | Returned d => Returned d
    | Completed d st => filter_loop lower debug items2 d st
    end.
Proof.
  revert df2 steps. induction items1 as [|[col val] items1 IH]; intros df2 steps.
  - done.
  - simpl. destruct (is_empty_filter val); [apply IH|].
    case_bool_decide; [apply IH|].
    destruct (empty _); [done|apply IH].
Qed.

Lemma is_empty_filter_true val :
  is_empty_filter val = true
  ↔ val = Scalar SNone ∨ val = Scalar (SStr "") ∨ val = Coll [].
Proof.
  split.
  - destruct val as [[[|a s]| | |]|[|v vs]]; simpl; intros; try done; eauto.
  - by intros [->|[->| ->]].
Qed.

Lemma loop_skip col val items df2 steps :
  is_empty_filter val = true ∨ col ∉ columns df2 →
  filter_loop lower false ((col, val) :: items) df2 steps = filter_loop lower false items df2 steps.
Proof.
  intros H. simpl. destruct (is_empty_filter val); [done|].
  destruct H as [|H]; [done|]. by rewrite bool_decide_true.
Qed.

(** C6. Filtering with an empty filter specification ([{}], or [None],
    which [filtros or {}] turns into it) and no search returns the input
    table itself: same columns, same rows with the same cells, in the
    same order.  With [debug] only the initial count is printed. *)
Theorem filter_empty_spec_is_identity df exact_match debug :
  filter_data lower re_compile df (Some []) None None exact_match debug
    = Ok {| returned := df;
            stdout := if debug then [(initial, len df)] else [] |}
  ∧ filter_data lower re_compile df None None None exact_match debug
    = Ok {| returned := df;
            stdout := if debug then [(initial, len df)] else [] |}.
Proof. done. Qed.

(** C10. A search column with a null or an empty-string query gives
    exactly what no search specification gives, returned table and trace
    alike, in both match modes: the search step is not entered, so an
    exact search for the empty string cannot be asked for. *)
Theorem empty_query_disables_search df filtros col exact_match debug :
  filter_data lower re_compile df filtros (Some col) None exact_match debug
    = filter_data lower re_compile df filtros None None exact_match debug
  ∧ filter_data lower re_compile df filtros (Some col) (Some "") exact_match debug
    = filter_data lower re_compile df filtros None None exact_match debug.
Proof.
  split; unfold filter_data; destruct (filter_loop lower _ _ _ _); try done.
  simpl. by rewrite andb_false_r.
Qed.

(** C7. An entry whose constraint is [None], the empty string or an empty
    collection, and an entry that names a column the table does not have,
    is skipped: wherever it stands in the specification, the returned
    table (or the exception of the search step) is the one obtained with
    the entry removed. *)
Theorem ignorable_entry_is_skipped df items1 items2 col val cs q
    exact_match debug :
  val = Scalar SNone ∨ val = Scalar (SStr "") ∨ val = Coll []
    ∨ col ∉ columns df →
  table_of (filter_data lower re_compile df (Some (items1 ++ (col, val) :: items2)) cs q exact_match debug)
  = table_of (filter_data lower re_compile df (Some (items1 ++ items2)) cs q exact_match debug).
Proof.
  intros H.
  rewrite (table_of_debug _ (Some (items1 ++ _ :: _))),
          (table_of_debug _ (Some (items1 ++ items2))).
  unfold filter_data. simpl. rewrite !loop_app.
  pose proof (loop_columns false items1 df []) as Hc.
  destruct (filter_loop lower false items1 df []) as [d|d st]; [done|]. simpl in Hc.
  rewrite loop_skip; [done|].
  rewrite Hc, is_empty_filter_true. tauto.
Qed.

(** C5. When the loop reaches an entry with working table [df1], the
    entry is applied (its constraint is not ignorable, its column exists)
    and no row is left, the call returns that empty table at once:
    whatever entries follow and whatever search was asked for, nothing
    more is applied, printed or raised, and the result has no rows. *)
Theorem early_exit_returns_empty df items1 items2 col val cs q exact_match
    debug steps0 df1 steps1 :
  filter_loop lower debug items1 df steps0 = Completed df1 steps1 →
  is_empty_filter val = false →
  col ∈ columns df1 →
  rows (apply_filter lower col val df1) = [] →
  filter_data lower re_compile df (Some (items1 ++ (col, val) :: items2)) cs q exact_match debug
    = Ok {| returned := apply_filter lower col val df1; stdout := [] |}
  ∧ rows (apply_filter lower col val df1) = [].
Proof.
  intros Hloop Hval Hcol Hrows. split; [|done].
  unfold filter_data. simpl.
  set (st := if debug then _ else _).
  assert (erase (filter_loop lower debug (items1 ++ (col, val) :: items2) df st)
          = Returned (apply_filter lower col val df1)) as He.
  { rewrite loop_erase, loop_app.
    rewrite (loop_completed_erase _ _ _ _ _ _ Hloop). simpl.
    rewrite Hval, bool_decide_false by (by intros []).
    by rewrite apply_filter_empty, bool_decide_true. }
  destruct (filter_loop lower debug _ df st); simpl in He; by simplify_eq.
Qed.

(** *** Which rows come back, and with which cells *)

Lemma filter_fmap {A B} (f : A → B) (P : B → Prop) `{!∀ y, Decision (P y)}
    (l : list A) :
  filter P (f <$> l) = f <$> filter (λ x, P (f x)) l.
Proof.
  induction l as [|x l IH]; [done|].
  rewrite fmap_cons, !filter_cons. case_decide; by rewrite IH.
Qed.

Lemma sublist_fmap_inv {A B} (f : A → B) (k : list B) (l : list A) :
  k `sublist_of` f <$> l → ∃ l', l' `sublist_of` l ∧ k = f <$> l'.
Proof.
  revert k. induction l as [|x l IH]; intros k.
  - rewrite fmap_nil, sublist_nil_r. intros ->. by exists [].
  - rewrite fmap_cons, sublist_cons_r. intros [Hk|(k' & -> & Hk)].
    + destruct (IH _ Hk) as (l' & ? & ->). exists l'. split; [|done].
      by apply sublist_cons.
    + destruct (IH _ Hk) as (l' & ? & ->). exists (x :: l'). split; [|done].
      by apply sublist_skip.
Qed.

Lemma eq_mask_lower_row col v r :
  eq_mask col v (lower_row lower col r) ↔ cell_norm lower col r = v.
Proof.
  unfold eq_mask, lower_row. simpl. rewrite lookup_insert_eq.
  rewrite bool_decide_spec. naive_solver.
Qed.

Lemma isin_mask_lower_row col vals r :
  isin_mask col vals (lower_row lower col r) ↔ cell_norm lower col r ∈ vals.
Proof.
  unfold isin_mask, lower_row. simpl. rewrite lookup_insert_eq.
  by rewrite bool_decide_spec.
Qed.

(** The rows an applied entry keeps are those whose lowercase text
    matches, each with the column overwritten by that text. *)
Lemma apply_filter_rows col val df2 :
  rows (apply_filter lower col val df2)
  = lower_row lower col
      <$> filter (λ r, lowercase_match lower val (cell_norm lower col r))
            (rows df2).
Proof.
  destruct val as [v|vs]; simpl; rewrite filter_fmap; f_equal;
    apply list_filter_iff; intros r.
  - apply eq_mask_lower_row.
  - apply isin_mask_lower_row.
Qed.

Lemma lower_cols_cons c cs r :
  lower_cols lower (c :: cs) r = lower_cols lower cs (lower_row lower c r).
Proof. done. Qed.

Lemma lower_cols_app cs1 cs2 r :
  lower_cols lower (cs1 ++ cs2) r
  = lower_cols lower cs2 (lower_cols lower cs1 r).
Proof. apply foldl_app. Qed.

Lemma lower_cols_label cs r : label (lower_cols lower cs r) = label r.
Proof.
  revert r. induction cs as [|c cs IH]; intros r; [done|].
  by rewrite lower_cols_cons, IH.
Qed.

Lemma lower_cols_other cs c r :
  c ∉ cs → cells (lower_cols lower cs r) !! c = cells r !! c.
Proof.
  revert r. induction cs as [|a cs IH]; intros r Hc; [done|].
  apply not_elem_of_cons in Hc as [Hne Hc].
  rewrite lower_cols_cons, IH by done. simpl. by rewrite lookup_insert_ne.
Qed.

Lemma cell_norm_lower_row a c r :
  (∀ s, lower (lower s) = lower s) →
  cell_norm lower c (lower_row lower a r) = cell_norm lower c r.
Proof.
  intros Hidem. unfold cell_norm at 1. simpl.
  destruct (decide (a = c)) as [->|Hne].
  - rewrite lookup_insert_eq. simpl. apply Hidem.
  - by rewrite lookup_insert_ne.
Qed.

Lemma lower_cols_named cs c r :
  (∀ s, lower (lower s) = lower s) →
  c ∈ cs → cells (lower_cols lower cs r) !! c = Some (cell_norm lower c r).
Proof.
  intros Hidem. revert r. induction cs as [|a cs IH]; intros r Hc.
  - by apply elem_of_nil in Hc.
  - rewrite lower_cols_cons. destruct (decide (c ∈ cs)) as [Hin|Hout].
    + by rewrite IH, cell_norm_lower_row.
    + apply elem_of_cons in Hc as [->|]; [|done].
      rewrite lower_cols_other by done. simpl. by rewrite lookup_insert_eq.
Qed.

Lemma applied_columns_cons cols col val items :
  applied_columns cols ((col, val) :: items)
  = if is_empty_filter val then applied_columns cols items
    else if bool_decide (col ∉ cols) then applied_columns cols items
    else col :: applied_columns cols items.
Proof.
  unfold applied_columns. rewrite filter_cons. simpl.
  destruct (is_empty_filter val) eqn:Hval; case_decide as Hd;
    try case_bool_decide; try done;
    first [by destruct Hd as [? ?] | by destruct Hd].
Qed.

Lemma loop_returned_no_rows debug items df2 steps d :
  filter_loop lower debug items df2 steps = Returned d → rows d = [].
Proof.
  revert df2 steps. induction items as [|[col val] items IH]; intros df2 steps.
  - done.
  - simpl. destruct (is_empty_filter val); [apply IH|].
    case_bool_decide as Hcol; [apply IH|].
    rewrite apply_filter_empty by done. case_bool_decide; [|apply IH].
    by intros [= <-].
Qed.

Lemma loop_rows debug items df2 steps :
  ∃ kept, kept `sublist_of` rows df2
    ∧ rows (exit_table (filter_loop lower debug items df2 steps))
      = lower_cols lower (applied_columns (columns df2) items) <$> kept.
Proof.
  revert df2 steps. induction items as [|[col val] items IH]; intros df2 steps.
  - exists (rows df2). split; [done|]. simpl.
    by rewrite <-(list_fmap_id (rows df2)) at 1.
  - rewrite applied_columns_cons. simpl.
    destruct (is_empty_filter val); [apply IH|].
    case_bool_decide as Hcol; [apply IH|].
    rewrite apply_filter_empty by done. case_bool_decide as Hrows.
    + exists []. split; [apply sublist_nil_l|]. simpl. by rewrite Hrows.
    + destruct (IH (apply_filter lower col val df2)
                  (record debug steps
                     (after_filter col, len (apply_filter lower col val df2))))
        as (kept1 & Hsub & Heq).
      rewrite apply_filter_columns in Heq.
      rewrite apply_filter_rows in Hsub.
      apply sublist_fmap_inv in Hsub as (kept & Hsub & ->).
      exists kept. split.
      * etrans; [done|]. apply sublist_filter.
      * rewrite Heq, <-list_fmap_compose. by apply list_fmap_ext.
Qed.

Lemma boolean_index_lower_rows (mask : Row → bool) col df2 :
  ∃ kept, kept `sublist_of` rows df2
    ∧ rows (boolean_index mask (lower_column lower col df2))
      = lower_cols lower [col] <$> kept.
Proof.
  destruct (sublist_fmap_inv (lower_row lower col)
              (rows (boolean_index mask (lower_column lower col df2)))
              (rows df2)) as (kept & Hsub & Heq).
  - apply sublist_filter.
  - by exists kept.
Qed.

Lemma search_step_rows debug col q exact_match df2 steps d steps' :
  search_step lower re_compile debug col q exact_match df2 steps
    = Ok (d, steps') →
  columns d = columns df2
  ∧ ∃ kept, kept `sublist_of` rows df2
      ∧ rows d
        = lower_cols lower (if bool_decide (col ∈ columns df2) then [col] else [])
            <$> kept.
Proof.
  unfold search_step. case_bool_decide.
  - destruct exact_match; [|destruct (re_compile _) as [search|]; [|done]];
      intros [= <- _]; (split; [done|]); apply boolean_index_lower_rows.
  - intros [= <- _]. split; [done|]. exists (rows df2). split; [done|].
    by rewrite list_fmap_id.
Qed.

(** The returned table, for every call that returns one: the columns of
    the input, and the rows of an order-preserving selection of the input
    rows, each with its normalised columns overwritten. *)
Lemma run_rows df filtros cs q exact_match debug R :
  table_of (filter_data lower re_compile df filtros cs q exact_match debug) = Ok R →
  columns R = columns df
  ∧ ∃ kept, kept `sublist_of` rows df
      ∧ rows R
        = lower_cols lower (normalized_columns (columns df) filtros cs q)
            <$> kept.
Proof.
  unfold filter_data, normalized_columns. cbv zeta.
  set (st := if debug then _ else _).
  pose proof (loop_columns debug (default [] filtros) df st) as Hcols.
  pose proof (loop_rows debug (default [] filtros) df st) as (kept & Hsub & Hrows).
  pose proof (loop_returned_no_rows debug (default [] filtros) df st) as Hret.
  destruct (filter_loop lower debug _ df st) as [d|d st']; simpl in Hcols, Hrows.
  { intros [= <-]. split; [done|]. exists []. split; [apply sublist_nil_l|].
    by rewrite (Hret d). }
  clear Hret.
  assert (∀ cs', cs' = [] →
    columns d = columns df ∧ ∃ kept0, kept0 `sublist_of` rows df ∧
      rows d = lower_cols lower
        (applied_columns (columns df) (default [] filtros) ++ cs') <$> kept0)
    as Hplain.
  { intros cs' ->. split; [done|]. exists kept. by rewrite app_nil_r. }
  unfold searched_column.
  destruct cs as [col|]; [|intros [= <-]; by apply Hplain].
  destruct q as [s|].
  2:{ intros [= <-]. apply Hplain. simpl. by rewrite andb_false_r. }
  destruct (truthy (Some col) && truthy (Some s)) eqn:Ht; simpl;
    [|intros [= <-]; by apply Hplain].
  destruct (search_step _ _ _ _ _ _ _ _) as [[d1 st1]|e] eqn:Hs; [|done].
  intros [= <-]. apply search_step_rows in Hs as (Hc1 & kept1 & Hsub1 & Hrows1).
  rewrite Hcols in Hrows1. split; [congruence|].
  rewrite Hrows in Hsub1.
  apply sublist_fmap_inv in Hsub1 as (kept0 & Hsub0 & ->).
  exists kept0. split; [by etrans|].
  rewrite Hrows1, <-list_fmap_compose. apply list_fmap_ext.
  intros i r _. simpl. by rewrite lower_cols_app.
Qed.

(** C9, as amended.  Whenever the call returns, the returned rows are, in
    order, those of an order-preserving subsequence [kept] of the input
    rows, each with the columns named by an applied filter entry or by
    the applied search overwritten by their lowercase text; no row is
    duplicated or reordered, and the index labels of the result are a
    subsequence of the labels of the input. *)
Theorem result_is_normalised_subsequence df filtros cs q exact_match debug R :
  table_of (filter_data lower re_compile df filtros cs q exact_match debug) = Ok R →
  ∃ kept, kept `sublist_of` rows df
    ∧ rows R
      = lower_cols lower (normalized_columns (columns df) filtros cs q)
          <$> kept
    ∧ label <$> rows R = label <$> kept
    ∧ label <$> rows R `sublist_of` label <$> rows df.
Proof.
  intros (_ & kept & Hsub & Hrows)%run_rows.
  assert (label <$> rows R = label <$> kept) as Hlab.
  { rewrite Hrows, <-list_fmap_compose. apply list_fmap_ext.
    intros i r _. apply lower_cols_label. }
  exists kept. repeat split; [done..|].
  rewrite Hlab. by apply fmap_sublist.
Qed.

(** C1, as amended.  Whenever the call returns, every returned row is an
    input row (same label, in the input order) whose cells are untouched
    in every column that no applied filter entry and no applied search
    names; in a named column a cell that holds a text comes back as the
    lowercase of that text (the second part for a lowering that is
    idempotent, as Python's is). *)
Theorem cells_outside_normalised_columns_verbatim df filtros cs q
    exact_match debug R :
  table_of (filter_data lower re_compile df filtros cs q exact_match debug) = Ok R →
  ∃ kept, kept `sublist_of` rows df
    ∧ Forall2 (λ r' r,
        label r' = label r
        ∧ ∀ c,
            (c ∉ normalized_columns (columns df) filtros cs q →
             cells r' !! c = cells r !! c)
            ∧ ((∀ s, lower (lower s) = lower s) →
               c ∈ normalized_columns (columns df) filtros cs q →
               ∀ x, cells r !! c = Some x → cells r' !! c = Some (lower x)))
        (rows R) kept.
Proof.
  intros (_ & kept & Hsub & Hrows)%run_rows.
  exists kept. split; [done|]. rewrite Hrows.
  apply Forall2_fmap_l, Forall_Forall2_diag, Forall_forall.
  intros r _. split; [apply lower_cols_label|]. intros c. split.
  - apply lower_cols_other.
  - intros Hidem Hc x Hx. rewrite lower_cols_named by done.
    unfold cell_norm. by rewrite Hx.
Qed.

(** *** Case variants *)

Lemma case_variant_empty val val' :
  case_variant lower val val' → is_empty_filter val = is_empty_filter val'.
Proof.
  destruct 1 as [s s' _ Hempty|vs vs' Hvs].
  - destruct Hempty as [H1 H2].
    destruct s, s'; simpl; try done;
      [by specialize (H1 eq_refl)|by specialize (H2 eq_refl)].
  - by destruct Hvs.
Qed.

Lemma case_variant_apply_filter col val val' df2 :
  case_variant lower val val' →
  apply_filter lower col val df2 = apply_filter lower col val' df2.
Proof.
  destruct 1 as [s s' Hlow _|vs vs' Hvs]; unfold apply_filter; cbv zeta.
  - unfold norm. simpl. by rewrite Hlow.
  - replace (norm lower <$> vs') with (norm lower <$> vs); [done|].
    induction Hvs; [done|]. rewrite !fmap_cons. congruence.
Qed.

Lemma case_variant_loop debug items1 items2 col val val' df2 steps :
  case_variant lower val val' →
  filter_loop lower debug (items1 ++ (col, val) :: items2) df2 steps
  = filter_loop lower debug (items1 ++ (col, val') :: items2) df2 steps.
Proof.
  intros Hcv. rewrite !loop_app. destruct (filter_loop lower debug items1 df2 steps); [done|].
  simpl. rewrite (case_variant_empty _ _ Hcv).
  by rewrite (case_variant_apply_filter col _ _ _ Hcv).
Qed.

(** The outcome of a specification with one applied entry and no search. *)
Lemma run_single col val df exact_match debug :
  is_empty_filter val = false → col ∈ columns df →
  table_of (filter_data lower re_compile df (Some [(col, val)]) None None exact_match debug)
  = Ok (apply_filter lower col val df).
Proof.
  intros Hval Hcol. unfold filter_data. simpl.
  rewrite Hval, bool_decide_false by (by intros []).
  by destruct (empty _).
Qed.

Lemma run_single_missing col val df exact_match debug :
  col ∉ columns df →
  table_of (filter_data lower re_compile df (Some [(col, val)]) None None exact_match debug) = Ok df.
Proof.
  intros Hcol. unfold filter_data. simpl.
  rewrite bool_decide_true by done. by destruct (is_empty_filter val).
Qed.

(** Filtering with a constraint and with a case variant of it gives
    identical outcomes, wherever the entry stands in the specification and
    whatever search follows. *)
Lemma case_variants_filter_alike df col val val' items1 items2 cs q
    exact_match debug :
  case_variant lower val val' →
  filter_data lower re_compile df (Some (items1 ++ (col, val) :: items2)) cs q exact_match debug
    = filter_data lower re_compile df (Some (items1 ++ (col, val') :: items2)) cs q exact_match debug.
Proof.
  intros Hcv. unfold filter_data. simpl.
  by rewrite (case_variant_loop _ _ _ _ _ _ _ _ Hcv).
Qed.

(** *** Filtering a result again *)

Lemma fmap_filter_fixed {A} (f : A → A) (Q : A → Prop)
    `{!∀ x, Decision (Q x)} (l : list A) :
  (∀ x, x ∈ l → Q x ∧ f x = x) → f <$> filter Q l = l.
Proof.
  induction l as [|x l IH]; intros Hall; [done|].
  destruct (Hall x ltac:(left)) as [HQ Hf].
  rewrite filter_cons_True, fmap_cons, Hf, IH; [done| |done].
  intros y Hy. apply Hall. by right.
Qed.

Lemma lower_row_twice col r :
  (∀ s, lower (lower s) = lower s) →
  lower_row lower col (lower_row lower col r) = lower_row lower col r.
Proof.
  intros Hidem. unfold lower_row at 1. rewrite cell_norm_lower_row by done.
  simpl. by rewrite insert_insert_eq.
Qed.

(** Re-applying a constraint that is at least as wide changes nothing. *)
Lemma apply_filter_wider col val val' df2 :
  (∀ s, lower (lower s) = lower s) →
  (∀ x, lowercase_match lower val x → lowercase_match lower val' x) →
  apply_filter lower col val' (apply_filter lower col val df2)
  = apply_filter lower col val df2.
Proof.
  intros Hidem Hwide.
  assert (∀ d1 d2, columns d1 = columns d2 → rows d1 = rows d2 → d1 = d2)
    as Heq by (intros [] [] ??; simplify_eq/=; done).
  apply Heq; [by rewrite !apply_filter_columns|].
  rewrite (apply_filter_rows col val'). apply fmap_filter_fixed.
  intros r1. rewrite apply_filter_rows, list_elem_of_fmap.
  intros (r & -> & [Hm _]%list_elem_of_filter).
  rewrite cell_norm_lower_row, lower_row_twice by done. auto.
Qed.

Lemma Coll_wider S S' x :
  S ⊆ S' → lowercase_match lower (Coll S) x → lowercase_match lower (Coll S') x.
Proof.
  simpl. rewrite !list_elem_of_fmap. intros Hsub (v & -> & Hv). eauto.
Qed.

(** C8, as amended.  For a non-empty constraint set [S] and a superset
    [S'] of it, filtering by [{col: S}] returns a table, and filtering
    that table by [{col: S'}] returns it unchanged (for a lowering that
    is idempotent, as Python's is).  An empty [S] is no constraint at
    all, so the first call then returns the input and the second is an
    ordinary first filtering by [S']. *)
Theorem refilter_by_superset df col S S' exact_match debug :
  (∀ s, lower (lower s) = lower s) →
  S ≠ [] → S ⊆ S' →
  ∃ R, table_of (filter_data lower re_compile df (Some [(col, Coll S)]) None None exact_match debug)
         = Ok R
    ∧ table_of (filter_data lower re_compile R (Some [(col, Coll S')]) None None exact_match debug)
         = Ok R.
Proof.
  intros Hidem HS Hsub.
  assert (is_empty_filter (Coll S) = false) as HeS by (by destruct S).
  assert (is_empty_filter (Coll S') = false) as HeS'.
  { destruct S as [|v S]; [done|]. destruct S' as [|v' S']; [|done].
    specialize (Hsub v). rewrite elem_of_cons, elem_of_nil in Hsub. tauto. }
  destruct (decide (col ∈ columns df)) as [Hcol|Hcol].
  - exists (apply_filter lower col (Coll S) df).
    split; [by apply run_single|].
    rewrite run_single; [|done|by rewrite apply_filter_columns].
    f_equal. apply apply_filter_wider; [done|].
    intros x. by apply Coll_wider.
  - exists df. by rewrite !run_single_missing.
Qed.

(** *** Null cells under a contains-search *)

(** [astype(str)] has replaced a null cell by ["nan"] before
    [str.contains] looks at it, so [na=False] never applies: whenever the
    pattern is found in the lowercase of ["nan"], the rows with a null
    target cell are returned. *)
Lemma null_cell_survives_contains df col q search r debug :
  col ∈ columns df → r ∈ rows df → cells r !! col = None →
  col ≠ "" → q ≠ "" →
  re_compile (lower q) = Some search → search (lower "nan") = true →
  ∃ R, table_of (filter_data lower re_compile df None (Some col) (Some q) false debug)
         = Ok R
    ∧ lower_row lower col r ∈ rows R.
Proof.
  intros Hcol Hr Hnull Hc Hq Hre Hfound.
  unfold filter_data, search_step. simpl.
  rewrite (proj2 (String.eqb_neq col "")), (proj2 (String.eqb_neq q "")) by done.
  simpl. rewrite bool_decide_true, Hre by done. simpl.
  eexists. split; [done|]. simpl. apply list_elem_of_filter. split.
  - unfold contains_mask, lower_row, cell_norm. simpl.
    rewrite lookup_insert_eq, Hnull. simpl. by rewrite Hfound.
  - apply list_elem_of_fmap. eauto.
Qed.

End FilterProperties.

(** * Properties of the registry client *)

Section RegistryProperties.

Import Registry.

Variable requests_get : string → result py_exception response.

Implicit Types (cnpj : string) (ui : list ui_event).

Local Ltac unfold_M :=
  unfold guarded_get_cnpj_data, get_cnpj_data, try_except, resp_json, error,
    mbind, M_bind, mret, M_ret, bind, ret, raise, lift.

(** Left to itself, [get_cnpj_data] lets a transport failure through. *)
Lemma get_cnpj_data_propagates cnpj ui e :
  requests_get (url_of cnpj) = Raise e →
  get_cnpj_data requests_get cnpj ui = (Raise e, ui).
Proof. intros H. unfold_M. by rewrite H. Qed.

(** A decoding failure of a 200 answer is contained by the guard too. *)
Lemma guarded_bad_json cnpj ui :
  requests_get (url_of cnpj) = Ok {| status_code := 200; body := None |} →
  guarded_get_cnpj_data requests_get cnpj ui
  = (Ok empty_record, ui ++ [st_error (erro_brasilapi JSONDecodeError)]).
Proof.
  intros H. unfold_M. by rewrite H.
Qed.

(** C3. The fetch as the page performs it ([get_cnpj_data] under its
    [try]/[except Exception]) never raises, whatever the network does: a
    response whose status is not 200 gives the empty record and one
    [st.error] message naming the status; a transport failure gives the
    empty record and one [st.error] message naming the exception. *)
Theorem guarded_fetch_never_raises cnpj ui :
  (∃ dados ui',
     guarded_get_cnpj_data requests_get cnpj ui = (Ok dados, ui'))
  ∧ (∀ resp,
       requests_get (url_of cnpj) = Ok resp → status_code resp ≠ 200 →
       guarded_get_cnpj_data requests_get cnpj ui
       = (Ok empty_record, ui ++ [st_error (erro_status (status_code resp))]))
  ∧ (∀ e,
       requests_get (url_of cnpj) = Raise e →
       guarded_get_cnpj_data requests_get cnpj ui
       = (Ok empty_record, ui ++ [st_error (erro_brasilapi e)])).
Proof.
  unfold_M.
  destruct (requests_get (url_of cnpj)) as [resp|e] eqn:Hget.
  - destruct (Nat.eqb_spec (status_code resp) 200) as [H200|H200].
    + split; [|split; [intros ? [= <-] ?; done|done]].
      destruct (body resp); cbn; eauto.
    + split; [cbn; eauto|]. split; [|done]. by intros ? [= <-] _.
  - split; [cbn; eauto|]. split; [done|]. by intros ? [= <-].
Qed.

End RegistryProperties.

(** ** Computed examples *)

Section Examples.

Lemma lower_ascii_idem a : lower_ascii (lower_ascii a) = lower_ascii a.
Proof. by destruct a as [[] [] [] [] [] [] [] []]. Qed.

Lemma ascii_lower_idem s : ascii_lower (ascii_lower s) = ascii_lower s.
Proof. induction s as [|a s IH]; simpl; [done|]. by rewrite lower_ascii_idem, IH. Qed.

(** The scenario of the specification, section 8: ["sil"] is found in
    ["Brasil"] and ["Silva"], not in ["Norte"]; exact search finds none. *)
Example contains_sil :
  let df := {| columns := ["NOME"];
               rows := [ row 0 [("NOME", "Brasil")]; row 1 [("NOME", "Silva")];
                         row 2 [("NOME", "Norte")] ] |} in
  table_of (filter_data ascii_lower literal_re df None (Some "NOME") (Some "sil") false false)
    = Ok {| columns := ["NOME"];
            rows := [ row 0 [("NOME", "brasil")]; row 1 [("NOME", "silva")] ] |}
  ∧ table_of (filter_data ascii_lower literal_re df None (Some "NOME") (Some "sil") true false)
    = Ok {| columns := ["NOME"]; rows := [] |}.
Proof. done. Qed.

(** A pattern that does not compile makes the call raise. *)
Example contains_bad_pattern :
  filter_data ascii_lower literal_re people None (Some "NOME") (Some "(") false false = Raise (re_error "(").
Proof. done. Qed.

(** *** Where the specification and the code part *)

(** C1, counterexample.  Filtering [people] by [{"UF": ["SP"]}] returns
    the first row with ["sp"] where the input has ["SP"]. *)
Lemma lowercase_visible_in_output :
  ∃ R, table_of (filter_data ascii_lower literal_re people (Some [("UF", Coll [SStr "SP"])]) None None true false)
         = Ok R
    ∧ ¬ cells_verbatim people R.
Proof.
  exists people_sp. split; [done|]. intros H.
  destruct (H (row 0 [("NOME", "Ana"); ("UF", "sp")])) as (r & Hin & Hlab & Hcells);
    [by left|].
  specialize (Hcells "UF").
  repeat (apply elem_of_cons in Hin as [->|Hin]); try done.
  by apply elem_of_nil in Hin.
Qed.

(** C9, counterexample.  An exact search for ["ANA"] in ["NOME"] returns
    one row, and that row, with its ["ana"], is not a row of [people]. *)
Lemma result_rows_not_input_rows :
  ∃ R, table_of (filter_data ascii_lower literal_re people None (Some "NOME") (Some "ANA") true false) = Ok R
    ∧ ¬ rows_subsequence people R.
Proof.
  exists people_ana. split; [done|]. intros H%sublist_subseteq.
  specialize (H (row 0 [("NOME", "ana"); ("UF", "SP")]) ltac:(left)).
  repeat (apply elem_of_cons in H as [H|H]); try done.
  by apply elem_of_nil in H.
Qed.

(** C8, counterexample.  With the empty set for [S] and [{"RJ"}] for its
    superset, the first filtering returns [people] and the second does
    not. *)
Lemma refilter_after_empty_set_shrinks :
  [] ⊆ [SStr "RJ"]
  ∧ table_of (filter_data ascii_lower literal_re people (Some [("UF", Coll [])]) None None true false)
    = Ok people
  ∧ table_of (filter_data ascii_lower literal_re people (Some [("UF", Coll [SStr "RJ"])]) None None true false)
    = Ok people_rj
  ∧ people_rj ≠ people.
Proof. repeat split; [|done..]. intros x Hx. by apply elem_of_nil in Hx. Qed.

(** C2, at the failing input.  The second row of [people] has a null
    ["NOME"]; a contains-search for ["an"] in that column returns it next
    to Ana's row, its cell now reading ["nan"]. *)
Theorem null_cell_matches_query :
  row 1 [("UF", "RJ")] ∈ rows people
  ∧ cells (row 1 [("UF", "RJ")]) !! "NOME" = None
  ∧ table_of (filter_data ascii_lower literal_re people (Some [])
                (Some "NOME") (Some "an") false false)
    = Ok people_an.
Proof. split; [by right; left|done]. Qed.

(** C4, at the failing input.  The second row of [people] has a null
    ["NOME"], a cell without text and so without a lowercase form; the
    filter [{"NOME": "NaN"}] returns that row and no other, its cell now
    reading ["nan"]. *)
Theorem null_cell_matches_nan_filter :
  row 1 [("UF", "RJ")] ∈ rows people
  ∧ cells (row 1 [("UF", "RJ")]) !! "NOME" = None
  ∧ table_of (filter_data ascii_lower literal_re people
                (Some [("NOME", Scalar (SStr "NaN"))]) None None true false)
    = Ok {| columns := ["NOME"; "UF"];
            rows := [ row 1 [("NOME", "nan"); ("UF", "RJ")] ] |}.
Proof. split; [by right; left|done]. Qed.

(** *** Instances of the theorems *)

Lemma cells_outside_normalised_columns_verbatim_witness :
  ∃ kept, kept `sublist_of` rows people
    ∧ Forall2 (λ r' r,
        label r' = label r
        ∧ ∀ c,
            (c ∉ ["UF"] → cells r' !! c = cells r !! c)
            ∧ ((∀ s, ascii_lower (ascii_lower s) = ascii_lower s) →
               c ∈ ["UF"] →
               ∀ x, cells r !! c = Some x → cells r' !! c = Some (ascii_lower x)))
        (rows people_sp) kept.
Proof.
  apply (cells_outside_normalised_columns_verbatim ascii_lower literal_re
           people (Some [("UF", Coll [SStr "SP"])]) None None true false
           people_sp).
  reflexivity.
Defined.

Lemma result_is_normalised_subsequence_witness :
  ∃ kept, kept `sublist_of` rows people
    ∧ rows people_ana = lower_cols ascii_lower ["NOME"] <$> kept
    ∧ label <$> rows people_ana = label <$> kept
    ∧ label <$> rows people_ana `sublist_of` label <$> rows people.
Proof.
  apply (result_is_normalised_subsequence ascii_lower literal_re
           people None (Some "NOME") (Some "ANA") true false people_ana).
  reflexivity.
Defined.

Lemma early_exit_returns_empty_witness :
  filter_data ascii_lower literal_re people
      (Some [("UF", Coll [SStr "sp"]); ("NOME", Scalar (SStr "zzz"));
             ("CIDADE", Scalar (SStr "Recife"))])
      (Some "NOME") (Some "(") false true
    = Ok {| returned := apply_filter ascii_lower "NOME" (Scalar (SStr "zzz")) people_sp;
            stdout := [] |}
  ∧ rows (apply_filter ascii_lower "NOME" (Scalar (SStr "zzz")) people_sp) = [].
Proof.
  apply (early_exit_returns_empty ascii_lower literal_re people
           [("UF", Coll [SStr "sp"])] [("CIDADE", Scalar (SStr "Recife"))]
           "NOME" (Scalar (SStr "zzz")) (Some "NOME") (Some "(") false true
           [(initial, 3)] people_sp [(initial, 3); (after_filter "UF", 2)]).
  - reflexivity.
  - reflexivity.
  - left.
  - reflexivity.
Defined.

Lemma ignorable_entry_is_skipped_witness :
  table_of (filter_data ascii_lower literal_re people
              (Some [("UF", Coll [SStr "SP"]); ("CIDADE", Scalar (SStr "Recife"))])
              None None true false)
  = table_of (filter_data ascii_lower literal_re people (Some [("UF", Coll [SStr "SP"])]) None None true false).
Proof.
  apply (ignorable_entry_is_skipped ascii_lower literal_re people
           [("UF", Coll [SStr "SP"])] [] "CIDADE" (Scalar (SStr "Recife"))).
  right. right. right. intros H.
  repeat (apply elem_of_cons in H as [H|H]; [discriminate|]).
  by apply elem_of_nil in H.
Defined.

Lemma refilter_by_superset_witness :
  ∃ R, table_of (filter_data ascii_lower literal_re people (Some [("UF", Coll [SStr "SP"])]) None None true false)
         = Ok R
    ∧ table_of (filter_data ascii_lower literal_re R (Some [("UF", Coll [SStr "RJ"; SStr "SP"])]) None None true false)
         = Ok R.
Proof.
  apply (refilter_by_superset ascii_lower literal_re people "UF"
           [SStr "SP"] [SStr "RJ"; SStr "SP"] true false).
  - exact ascii_lower_idem.
  - discriminate.
  - intros x Hx. apply elem_of_cons in Hx as [->|Hx]; [right; left|].
    by apply elem_of_nil in Hx.
Defined.

Lemma guarded_fetch_never_raises_witness :
  Registry.guarded_get_cnpj_data not_found "00000000000191" []
    = (Ok Registry.empty_record, [Registry.st_error (Registry.erro_status 404)])
  ∧ Registry.guarded_get_cnpj_data offline "00000000000191" []
    = (Ok Registry.empty_record,
       [Registry.st_error (Registry.erro_brasilapi Registry.Timeout)]).
Proof.
  split.
  - apply (proj1 (proj2 (guarded_fetch_never_raises not_found "00000000000191" []))
             {| Registry.status_code := 404; Registry.body := None |}).
    + reflexivity.
    + discriminate.
  - apply (proj2 (proj2 (guarded_fetch_never_raises offline "00000000000191" []))
             Registry.Timeout).
    reflexivity.
Defined.

End Examples.

(** * Further properties of the filter engine *)

Section MoreFilterProperties.

Variable lower : string → string.
Variable re_compile : string → option (string → bool).

Local Arguments apply_filter : simpl never.

Implicit Types (df R : DataFrame) (r : Row) (col : string)
  (val : constraint) (items : list (string * constraint))
  (steps : list step) (debug exact_match : bool).

(** X1. A call that returns keeps the column index as it is and returns
    no more rows than it was given. *)
Theorem result_keeps_columns_and_shrinks df filtros cs q exact_match debug R :
  table_of (filter_data lower re_compile df filtros cs q exact_match debug) = Ok R →
  columns R = columns df ∧ len R ≤ len df.
Proof.
  intros (Hcols & kept & Hsub & Hrows)%run_rows. split; [done|].
  unfold len. rewrite Hrows, length_fmap. by apply sublist_length.
Qed.

(** X2. Row labels that are distinct in the input are distinct in the
    result. *)
Theorem unique_labels_stay_unique df filtros cs q exact_match debug R :
  table_of (filter_data lower re_compile df filtros cs q exact_match debug) = Ok R →
  NoDup (label <$> rows df) → NoDup (label <$> rows R).
Proof.
  intros (_ & kept & Hsub & Hrows)%run_rows Hnd.
  apply (sublist_NoDup _ (label <$> rows df)); [done|].
  rewrite Hrows, <-list_fmap_compose.
  rewrite (list_fmap_ext _ label kept) by (intros; apply lower_cols_label).
  by apply fmap_sublist.
Qed.

(** X4. The [debug] flag changes what is printed, never what is returned
    or raised; without it nothing is printed. *)
Theorem debug_only_prints df filtros cs q exact_match debug debug' :
  table_of (filter_data lower re_compile df filtros cs q exact_match debug)
  = table_of (filter_data lower re_compile df filtros cs q exact_match debug')
  ∧ ∀ o, filter_data lower re_compile df filtros cs q exact_match false = Ok o →
         stdout o = [].
Proof.
  split.
  { by rewrite (table_of_debug lower re_compile df filtros cs q exact_match debug),
      (table_of_debug lower re_compile df filtros cs q exact_match debug'). }
  unfold filter_data. cbv zeta. cbn match. intros o.
  assert (∀ items df2 d st,
    filter_loop lower false items df2 [] = Completed d st → st = []) as Hst.
  { intros items df2 d st H.
    pose proof (loop_erase lower false items df2 []) as He. rewrite H in He.
    simpl in He. congruence. }
  destruct (filter_loop _ _ _ _ _) as [d|d st] eqn:Hl; [by intros [= <-]|].
  apply Hst in Hl as ->.
  destruct cs as [col|], q as [query|]; try by intros [= <-].
  destruct (truthy _ && truthy _); [|by intros [= <-]].
  unfold search_step. case_bool_decide; [|by intros [= <-]].
  destruct exact_match; [by intros [= <-]|].
  destruct (re_compile _); [by intros [= <-]|done].
Qed.

(** *** Entries on distinct columns: a conjunction *)

Lemma filter_all {A} (P : A → Prop) `{!∀ x, Decision (P x)} (l : list A) :
  (∀ x, x ∈ l → P x) → filter P l = l.
Proof.
  induction l as [|x l IH]; intros Hall; [done|].
  rewrite filter_cons_True by (apply Hall; left).
  rewrite IH; [done|]. intros y Hy. apply Hall. by right.
Qed.

Lemma filter_none {A} (P Q : A → Prop) `{!∀ x, Decision (P x)}
    `{!∀ x, Decision (Q x)} (l : list A) :
  (∀ x, P x → Q x) → filter Q l = [] → filter P l = [].
Proof.
  intros Himp HQ. rewrite <-(list_filter_filter_l P Q) by done. by rewrite HQ.
Qed.

Lemma cell_norm_lower_row_ne a c r :
  a ≠ c → cell_norm lower c (lower_row lower a r) = cell_norm lower c r.
Proof. intros Hne. unfold cell_norm. simpl. by rewrite lookup_insert_ne. Qed.

Lemma row_passes_cons cols col val items r :
  row_passes lower cols ((col, val) :: items) r
  ↔ (entry_applies cols (col, val) →
     lowercase_match lower val (cell_norm lower col r))
    ∧ row_passes lower cols items r.
Proof. unfold row_passes. rewrite Forall_cons. reflexivity. Qed.

Lemma row_passes_lower_row cols items c r :
  c ∉ items.*1 →
  row_passes lower cols items (lower_row lower c r)
  ↔ row_passes lower cols items r.
Proof.
  induction items as [|[col val] items IH]; intros Hc.
  { split; intros _; constructor. }
  rewrite fmap_cons in Hc. apply not_elem_of_cons in Hc as [Hne Hc].
  rewrite !row_passes_cons, IH by done. simpl in Hne.
  rewrite cell_norm_lower_row_ne by done. reflexivity.
Qed.

Lemma applied_columns_sublist cols items :
  applied_columns cols items `sublist_of` items.*1.
Proof. unfold applied_columns. apply fmap_sublist, sublist_filter. Qed.

(** With distinct keys, the rows the loop leaves are exactly the rows that
    pass every applied entry. *)
Lemma loop_rows_exact debug items df2 steps :
  NoDup items.*1 →
  rows (exit_table (filter_loop lower debug items df2 steps))
  = lower_cols lower (applied_columns (columns df2) items)
      <$> filter (row_passes lower (columns df2) items) (rows df2).
Proof.
  revert df2 steps. induction items as [|[col val] items IH];
    intros df2 steps Hnd.
  - simpl. rewrite filter_all by (intros; constructor).
    by rewrite <-(list_fmap_id (rows df2)) at 1.
  - rewrite fmap_cons in Hnd. apply NoDup_cons in Hnd as [Hcol Hnd].
    rewrite applied_columns_cons. simpl.
    destruct (is_empty_filter val) eqn:Hval.
    { rewrite IH by done. f_equal. apply list_filter_iff. intros r.
      rewrite row_passes_cons. unfold entry_applies. simpl. rewrite Hval.
      split; [intros ?; split; [|done]; by intros [? ?]|by intros [_ ?]]. }
    case_bool_decide as Hin.
    { rewrite IH by done. f_equal. apply list_filter_iff. intros r.
      rewrite row_passes_cons. unfold entry_applies. simpl.
      split; [intros ?; split; [|done]; by intros [? ?]|by intros [_ ?]]. }
    assert (∀ r, row_passes lower (columns df2) ((col, val) :: items) r
             ↔ row_passes lower (columns df2) items r
               ∧ lowercase_match lower val (cell_norm lower col r)) as Hpass.
    { intros r. rewrite row_passes_cons. unfold entry_applies. simpl.
      split; [intros [Hm ?]; split; [done|by apply Hm]|by intros [? ?]]. }
    rewrite apply_filter_empty by done. case_bool_decide as Hrows; simpl.
    + rewrite Hrows. rewrite (apply_filter_rows lower re_compile) in Hrows.
      apply fmap_nil_inv in Hrows.
      rewrite (filter_none (row_passes lower (columns df2) ((col, val) :: items))
                 (λ r, lowercase_match lower val (cell_norm lower col r)));
        [done| |done].
      intros r Hr. by apply Hpass in Hr as [_ ?].
    + rewrite IH, apply_filter_columns, (apply_filter_rows lower re_compile) by done.
      rewrite filter_fmap, <-list_fmap_compose.
      rewrite (list_filter_iff _ (row_passes lower (columns df2) items))
        by (intros r; by apply row_passes_lower_row).
      rewrite list_filter_filter.
      rewrite (list_filter_iff _ _ _ (λ r, iff_sym (Hpass r))).
      by apply list_fmap_ext.
Qed.

Lemma loop_no_applied debug items df2 steps :
  applied_columns (columns df2) items = [] →
  erase (filter_loop lower debug items df2 steps) = Completed df2 [].
Proof.
  revert steps. induction items as [|[col val] items IH]; intros steps; [done|].
  rewrite applied_columns_cons. simpl.
  destruct (is_empty_filter val); [apply IH|].
  case_bool_decide; [apply IH|done].
Qed.

Lemma loop_completed_rows debug items df2 steps d st :
  filter_loop lower debug items df2 steps = Completed d st →
  applied_columns (columns df2) items ≠ [] → rows d ≠ [].
Proof.
  revert df2 steps. induction items as [|[col val] items IH];
    intros df2 steps; [done|].
  rewrite applied_columns_cons. simpl.
  destruct (is_empty_filter val); [apply IH|].
  case_bool_decide as Hin; [apply IH|].
  rewrite apply_filter_empty by done. case_bool_decide as Hrows; [done|].
  intros Hloop _.
  destruct (decide (applied_columns (columns df2) items = [])) as [Hno|Hsome].
  - rewrite <-(apply_filter_columns lower col val) in Hno.
    pose proof (loop_no_applied debug items _
                  (record debug steps
                     (after_filter col, len (apply_filter lower col val df2)))
                  Hno) as He.
    rewrite Hloop in He. simpl in He. by simplify_eq.
  - apply (IH _ _ Hloop). by rewrite apply_filter_columns.
Qed.

Lemma table_eq df1 df2 :
  columns df1 = columns df2 → rows df1 = rows df2 → df1 = df2.
Proof. destruct df1, df2. simpl. by intros -> ->. Qed.

Lemma row_eq r1 r2 : label r1 = label r2 → cells r1 = cells r2 → r1 = r2.
Proof. destruct r1, r2. simpl. by intros -> ->. Qed.

Lemma lower_cols_named_distinct cs c r :
  NoDup cs → c ∈ cs →
  cells (lower_cols lower cs r) !! c = Some (cell_norm lower c r).
Proof.
  revert r. induction cs as [|a cs IH]; intros r Hnd Hc.
  - by apply elem_of_nil in Hc.
  - apply NoDup_cons in Hnd as [Ha Hnd]. rewrite lower_cols_cons.
    destruct (decide (c = a)) as [->|Hne].
    + rewrite lower_cols_other by done. simpl. by rewrite lookup_insert_eq.
    + apply elem_of_cons in Hc as [?|Hc]; [done|].
      rewrite IH by done. by rewrite cell_norm_lower_row_ne.
Qed.

Lemma lower_cols_Permutation cs cs' r :
  NoDup cs → cs ≡ₚ cs' → lower_cols lower cs r = lower_cols lower cs' r.
Proof.
  intros Hnd Hperm. apply row_eq; [by rewrite !lower_cols_label|].
  apply map_eq. intros c. destruct (decide (c ∈ cs)) as [Hin|Hout].
  - rewrite !lower_cols_named_distinct; try done; by rewrite <-Hperm.
  - rewrite !lower_cols_other; try done. by rewrite <-Hperm.
Qed.

(** The table after the loop and the way the loop ended, for distinct keys. *)
Lemma loop_exact items df :
  NoDup items.*1 →
  let d := {| columns := columns df;
              rows := lower_cols lower (applied_columns (columns df) items)
                        <$> filter (row_passes lower (columns df) items) (rows df) |} in
  filter_loop lower false items df []
  = if bool_decide (applied_columns (columns df) items ≠ [] ∧ rows d = [])
    then Returned d else Completed d [].
Proof.
  intros Hnd d.
  pose proof (loop_columns lower false items df []) as Hcols.
  pose proof (loop_rows_exact false items df [] Hnd) as Hrows.
  pose proof (loop_erase lower false items df []) as Hst.
  destruct (filter_loop lower false items df []) as [d'|d' st] eqn:Hloop;
    simpl in Hcols, Hrows, Hst.
  - assert (d' = d) as -> by (by apply table_eq).
    rewrite bool_decide_true; [done|]. split.
    + intros Hno. pose proof (loop_no_applied false items df [] Hno) as He.
      by rewrite Hloop in He.
    + by apply (loop_returned_no_rows lower false items df []).
  - assert (d' = d) as -> by (by apply table_eq).
    rewrite bool_decide_false; [congruence|]. intros [Hsome Hnil].
    by apply (loop_completed_rows _ _ _ _ _ _ Hloop Hsome).
Qed.

(** The rows of a call without search, for distinct keys. *)
Lemma conjunction_rows df items exact_match debug :
  NoDup items.*1 →
  ∃ R, table_of (filter_data lower re_compile df (Some items) None None
                   exact_match debug) = Ok R
    ∧ columns R = columns df
    ∧ rows R
      = lower_cols lower (applied_columns (columns df) items)
          <$> filter (row_passes lower (columns df) items) (rows df).
Proof.
  intros Hnd. rewrite table_of_debug. unfold filter_data. simpl.
  rewrite (loop_exact items df Hnd). cbv zeta.
  case_bool_decide; simpl; eauto.
Qed.

Lemma filter_ext_in {A} (P Q : A → Prop) `{!∀ x, Decision (P x)}
    `{!∀ x, Decision (Q x)} (l : list A) :
  (∀ x, x ∈ l → P x ↔ Q x) → filter P l = filter Q l.
Proof.
  induction l as [|x l IH]; intros Hext; [done|].
  rewrite !filter_cons, IH by (intros y Hy; apply Hext; by right).
  destruct (decide (P x)) as [HP|HP], (decide (Q x)) as [HQ|HQ]; try done;
    exfalso; [apply HQ|apply HP]; by apply (Hext x); [left|].
Qed.

Lemma lowercase_match_satisfies val x :
  lowercase_match lower val (lower x) ↔ cell_satisfies lower val (Some x).
Proof.
  destruct val as [v|vs]; simpl; [done|].
  rewrite list_elem_of_fmap, Exists_exists. unfold norm.
  split; intros (v & H1 & H2); eauto.
Qed.

Lemma row_passes_satisfies cols items r :
  (∀ e, e ∈ items → is_empty_filter e.2 = false → e.1 ∈ cols →
        is_Some (cells r !! e.1)) →
  row_passes lower cols items r ↔ row_satisfies lower cols items r.
Proof.
  intros Htext. unfold row_passes, row_satisfies, entry_applies.
  rewrite !Forall_forall. apply forall_proper. intros e.
  split; intros H He.
  - intros Hval Hcol. destruct (Htext e He Hval Hcol) as [x Hx].
    rewrite Hx. apply lowercase_match_satisfies.
    specialize (H He (conj Hval Hcol)). unfold cell_norm in H.
    by rewrite Hx in H.
  - intros [Hval Hcol]. destruct (Htext e He Hval Hcol) as [x Hx].
    specialize (H He Hval Hcol). rewrite Hx in H.
    apply lowercase_match_satisfies in H. unfold cell_norm. by rewrite Hx.
Qed.

(** X5. A specification whose keys are distinct, as those of a [dict] are,
    acts as a conjunction.  On a table whose cells under the applied
    entries all hold a text, a call without search returns exactly the
    input rows whose cell satisfies every applied entry (its lowercase is
    the lowercase of the constraint, or of one of its values), in input
    order and with their labels; their cells are untouched outside the
    applied columns and lowercased inside. *)
Theorem filters_act_as_conjunction df items exact_match debug :
  NoDup items.*1 →
  (∀ r e, r ∈ rows df → e ∈ items → is_empty_filter e.2 = false →
          e.1 ∈ columns df → is_Some (cells r !! e.1)) →
  ∃ R, table_of (filter_data lower re_compile df (Some items) None None
                   exact_match debug) = Ok R
    ∧ columns R = columns df
    ∧ Forall2 (λ r' r,
        label r' = label r
        ∧ ∀ c,
            (c ∉ applied_columns (columns df) items →
             cells r' !! c = cells r !! c)
            ∧ (c ∈ applied_columns (columns df) items →
               ∀ x, cells r !! c = Some x → cells r' !! c = Some (lower x)))
        (rows R)
        (filter (row_satisfies lower (columns df) items) (rows df)).
Proof.
  intros Hnd Htext.
  destruct (conjunction_rows df items exact_match debug Hnd)
    as (R & Hrun & Hcols & Hrows).
  exists R. split; [done|]. split; [done|].
  rewrite Hrows.
  rewrite (filter_ext_in _ (row_satisfies lower (columns df) items))
    by (intros r Hr; apply row_passes_satisfies; intros e; by apply Htext).
  apply Forall2_fmap_l, Forall_Forall2_diag, Forall_forall.
  intros r _. split; [apply lower_cols_label|]. intros c. split.
  - apply lower_cols_other.
  - intros Hc x Hx. rewrite lower_cols_named_distinct; [| |done].
    + unfold cell_norm. by rewrite Hx.
    + apply (sublist_NoDup _ items.*1); [done|apply applied_columns_sublist].
Qed.

(** X6. The order of the entries does not matter for what is returned or
    raised: two specifications with distinct keys that are permutations of
    each other give the same table (or the same exception), whatever the
    search. *)
Theorem entry_order_is_immaterial df items items' cs q exact_match debug :
  NoDup items.*1 → items ≡ₚ items' →
  table_of (filter_data lower re_compile df (Some items) cs q exact_match debug)
  = table_of (filter_data lower re_compile df (Some items') cs q exact_match debug).
Proof.
  intros Hnd Hperm.
  assert (NoDup items'.*1) as Hnd' by (by rewrite <-Hperm).
  rewrite (table_of_debug _ _ _ (Some items)), (table_of_debug _ _ _ (Some items')).
  unfold filter_data. simpl.
  rewrite (loop_exact items df Hnd), (loop_exact items' df Hnd'). cbv zeta.
  assert (applied_columns (columns df) items
          ≡ₚ applied_columns (columns df) items') as Hcs.
  { unfold applied_columns. by rewrite Hperm. }
  assert (lower_cols lower (applied_columns (columns df) items)
            <$> filter (row_passes lower (columns df) items) (rows df)
          = lower_cols lower (applied_columns (columns df) items')
            <$> filter (row_passes lower (columns df) items') (rows df)) as ->.
  { rewrite (list_filter_iff _ (row_passes lower (columns df) items')).
    - apply list_fmap_ext. intros _ r _. apply lower_cols_Permutation; [|done].
      apply (sublist_NoDup _ items.*1); [done|apply applied_columns_sublist].
    - intros r. unfold row_passes. by rewrite Hperm. }
  assert (applied_columns (columns df) items = []
          ↔ applied_columns (columns df) items' = []) as Hnil.
  { split; intros H0; rewrite H0 in Hcs.
    - by apply Permutation_nil_l in Hcs.
    - by apply Permutation_nil_r in Hcs. }
  by rewrite (bool_decide_ext _ _
    (and_iff_compat_r _ (not_iff_compat Hnil))).
Qed.

Lemma applied_columns_ignorable cols items :
  Forall (λ e, is_empty_filter e.2 = true ∨ e.1 ∉ cols) items →
  applied_columns cols items = [].
Proof.
  induction 1 as [|[col val] items Hhd _ IH]; [done|].
  rewrite applied_columns_cons. simpl in Hhd.
  destruct (is_empty_filter val); [done|].
  destruct Hhd as [|Hhd]; [done|]. by rewrite bool_decide_true.
Qed.

(** X7. A specification in which every entry is ignorable or names a
    missing column filters nothing: the call returns or raises what it
    does without any specification. *)
Theorem all_ignorable_filters_nothing df items cs q exact_match debug :
  Forall (λ e, is_empty_filter e.2 = true ∨ e.1 ∉ columns df) items →
  table_of (filter_data lower re_compile df (Some items) cs q exact_match debug)
  = table_of (filter_data lower re_compile df None cs q exact_match debug).
Proof.
  intros Hall.
  rewrite (table_of_debug _ _ _ (Some items)), (table_of_debug _ _ _ None).
  unfold filter_data. simpl.
  pose proof (loop_no_applied false items df []) as He.
  rewrite loop_erase in He. rewrite He; [reflexivity|].
  by apply applied_columns_ignorable.
Qed.

(** *** The debug trace *)

Lemma well_traced_snoc n0 steps n name m :
  well_traced n0 steps n → m ≤ n → well_traced n0 (steps ++ [(name, m)]) m.
Proof.
  intros (Hhead & Hlast & Hsorted) Hm. repeat split.
  - by destruct steps.
  - unfold counts. rewrite fmap_app.
    change ([(name, m)].*2) with [m]. by rewrite last_snoc.
  - unfold counts in *. rewrite fmap_app. change ([(name, m)].*2) with [m].
    apply StronglySorted_app_2; [|done|repeat constructor].
    intros x1 x2 Hx1 ->%list_elem_of_singleton.
    apply last_Some in Hlast as [pre Hpre]. rewrite Hpre in Hsorted, Hx1.
    apply elem_of_app in Hx1 as [Hx1| ->%list_elem_of_singleton];
      [|unfold ge; simpl; lia].
    assert (x1 ≥ n) by
      (apply (StronglySorted_app_1_elem_of _ _ _ _ _ Hsorted Hx1); by left).
    unfold ge in *. simpl. lia.
Qed.

Lemma len_apply_filter col val df2 :
  len (apply_filter lower col val df2) ≤ len df2.
Proof.
  unfold len. rewrite (apply_filter_rows lower re_compile), length_fmap.
  apply length_filter.
Qed.

Lemma len_boolean_index_lower (mask : Row → bool) col df2 :
  len (boolean_index mask (lower_column lower col df2)) ≤ len df2.
Proof.
  unfold len. simpl. etrans; [apply length_filter|]. by rewrite length_fmap.
Qed.

Lemma loop_trace items n0 df2 steps d st :
  well_traced n0 steps (len df2) →
  filter_loop lower true items df2 steps = Completed d st →
  well_traced n0 st (len d).
Proof.
  revert df2 steps. induction items as [|[col val] items IH];
    intros df2 steps Hwt.
  - by intros [= <- <-].
  - simpl. destruct (is_empty_filter val); [by apply IH|].
    case_bool_decide.
    + apply IH. by apply (well_traced_snoc n0 steps (len df2)).
    + destruct (empty _); [done|]. apply IH.
      apply (well_traced_snoc n0 steps (len df2)); [done|apply len_apply_filter].
Qed.

Lemma search_step_trace col q exact_match n0 df2 steps d st :
  well_traced n0 steps (len df2) →
  search_step lower re_compile true col q exact_match df2 steps = Ok (d, st) →
  well_traced n0 st (len d).
Proof.
  intros Hwt. unfold search_step. case_bool_decide.
  - destruct exact_match; [|destruct (re_compile _); [|done]];
      intros [= <- <-];
      (apply (well_traced_snoc n0 steps (len df2)); [done|]);
      apply len_boolean_index_lower.
  - intros [= <- <-]. by apply (well_traced_snoc n0 steps (len df2)).
Qed.

(** X8. What [debug=True] prints.  The loop ends by its early [return]
    exactly when the filters alone, at least one of them applied, leave no
    row.  Then, and only then, the trace is dropped: nothing is printed
    and the table has no rows.  In every other case, a table without rows
    included, the printed trace opens with the initial row count of the
    input, its counts never increase, and its last count is the number of
    rows returned. *)
Theorem debug_trace_is_faithful df filtros cs q exact_match o :
  filter_data lower re_compile df filtros cs q exact_match true = Ok o →
  ∃ F, table_of (filter_data lower re_compile df filtros None None exact_match true)
         = Ok F
    ∧ let early :=
        is_returned (filter_loop lower true (default [] filtros) df
                       [(initial, len df)]) in
      (early = true
       ↔ applied_columns (columns df) (default [] filtros) ≠ [] ∧ rows F = [])
      ∧ (early = true → stdout o = [] ∧ rows (returned o) = [])
      ∧ (early = false → well_traced (len df) (stdout o) (len (returned o))).
Proof.
  unfold filter_data. cbv zeta. cbn match.
  assert (well_traced (len df) [(initial, len df)] (len df)) as Hwt0.
  { repeat split. repeat constructor. }
  pose proof (loop_no_applied true (default [] filtros) df
                [(initial, len df)]) as Hno.
  destruct (filter_loop _ _ _ _ _) as [d|d st] eqn:Hloop; simpl.
  { intros [= <-]. exists d. split; [done|].
    pose proof (loop_returned_no_rows _ _ _ _ _ _ Hloop) as Hnil.
    split; [|split; [done|done]].
    split; [intros _|done]. split; [|done].
    intros Happlied. by specialize (Hno Happlied). }
  intros Hrun. exists d. split; [done|]. split; [|split; [done|]].
  - split; [done|]. intros [Happlied Hnil].
    by destruct (loop_completed_rows _ _ _ _ _ _ Hloop Happlied).
  - intros _. apply (loop_trace _ _ _ _ _ _ Hwt0) in Hloop.
    destruct cs as [col|], q as [query|]; try (injection Hrun as <-; done).
    destruct (truthy _ && truthy _); [|injection Hrun as <-; done].
    destruct (search_step _ _ _ _ _ _ _ _) as [[d1 st1]|e] eqn:Hs; [|done].
    injection Hrun as <-. by apply (search_step_trace _ _ _ _ _ _ _ _ Hloop Hs).
Qed.

(** *** The search *)

(** X9. The search is case-insensitive in the query: two non-empty
    queries with the same lowercase form give the same outcome, in either
    match mode. *)
Theorem search_query_case_is_immaterial df filtros col q q' exact_match debug :
  lower q = lower q' → q ≠ "" → q' ≠ "" →
  filter_data lower re_compile df filtros (Some col) (Some q) exact_match debug
  = filter_data lower re_compile df filtros (Some col) (Some q') exact_match debug.
Proof.
  intros Hlow Hq Hq'. unfold filter_data. cbv zeta.
  destruct (filter_loop _ _ _ _ _); [done|]. simpl.
  rewrite (proj2 (String.eqb_neq q "")), (proj2 (String.eqb_neq q' "")) by done.
  unfold search_step. by rewrite Hlow.
Qed.

(** X10. An exact search on its own, in a column whose cells all hold a
    text, returns exactly the rows whose cell has the lowercase of the
    query as its lowercase (so a cell that differs from the query by
    letter case matches), in input order and with their labels; the
    searched cell comes back lowercased, every other cell as it was. *)
Theorem exact_search_keeps_lowercase_equal df col q debug :
  col ∈ columns df → col ≠ "" → q ≠ "" →
  (∀ r, r ∈ rows df → is_Some (cells r !! col)) →
  ∃ R, table_of (filter_data lower re_compile df None (Some col) (Some q) true debug)
         = Ok R
    ∧ columns R = columns df
    ∧ Forall2 (λ r' r,
        label r' = label r
        ∧ cells r' !! col = lower <$> cells r !! col
        ∧ ∀ c, c ≠ col → cells r' !! c = cells r !! c)
        (rows R)
        (filter (λ r, lower <$> cells r !! col = Some (lower q)) (rows df)).
Proof.
  intros Hcol Hc Hq Htext. rewrite table_of_debug.
  unfold filter_data, search_step. simpl.
  rewrite (proj2 (String.eqb_neq col "")), (proj2 (String.eqb_neq q "")) by done.
  simpl. rewrite bool_decide_true by done. simpl.
  eexists. split; [done|]. split; [done|]. simpl.
  rewrite filter_fmap.
  rewrite (filter_ext_in _ (λ r, lower <$> cells r !! col = Some (lower q))).
  - apply Forall2_fmap_l, Forall_Forall2_diag, Forall_forall.
    intros r [_ Hr]%list_elem_of_filter. destruct (Htext r Hr) as [x Hx].
    split; [done|]. split.
    + simpl. rewrite lookup_insert_eq. unfold cell_norm. by rewrite Hx.
    + intros c Hne. simpl. by rewrite lookup_insert_ne.
  - intros r Hr. destruct (Htext r Hr) as [x Hx].
    rewrite (eq_mask_lower_row lower re_compile). unfold cell_norm.
    rewrite Hx. simpl. split; [by intros ->|by intros [= ->]].
Qed.

End MoreFilterProperties.

(** * The identifier cleaner and the selector *)

Section CleanerProperties.

Implicit Types (s : string) (cnpj : option string).

Lemma remove_non_digits_digits_only s :
  digits_only (remove_non_digits s) = true.
Proof.
  induction s as [|a s IH]; [done|]. simpl.
  destruct (is_digit a) eqn:Ha; [|done]. simpl. by rewrite Ha.
Qed.

Lemma remove_non_digits_fixed s :
  digits_only s = true → remove_non_digits s = s.
Proof.
  induction s as [|a s IH]; [done|]. simpl.
  intros [Ha Hs]%andb_true_iff. by rewrite Ha, IH.
Qed.

(** X12. On ASCII text, and on [None], [clean_cnpj_digits] returns
    nothing but the digits ["0"] to ["9"]. *)
Theorem cleaned_is_digits_only cnpj :
  is_ascii (default "" cnpj) = true →
  digits_only (clean_cnpj_digits cnpj) = true.
Proof. intros _. apply remove_non_digits_digits_only. Qed.

(** X13. An ASCII text is left as it is by [clean_cnpj_digits] exactly
    when it is made of the digits ["0"] to ["9"]; and for every argument,
    cleaning twice is cleaning once. *)
Theorem cleaning_fixes_exactly_digit_texts s cnpj :
  (is_ascii s = true →
   (clean_cnpj_digits (Some s) = s ↔ digits_only s = true))
  ∧ clean_cnpj_digits (Some (clean_cnpj_digits cnpj)) = clean_cnpj_digits cnpj.
Proof.
  split; [intros _; split|].
  - intros <-. apply remove_non_digits_digits_only.
  - apply remove_non_digits_fixed.
  - apply remove_non_digits_fixed, remove_non_digits_digits_only.
Qed.

(** X14. Cleaning goes through concatenation: the digits of [a] followed
    by the digits of [b]. *)
Theorem cleaning_distributes_over_append a b :
  clean_cnpj_digits (Some (a +:+ b))
  = clean_cnpj_digits (Some a) +:+ clean_cnpj_digits (Some b).
Proof.
  unfold clean_cnpj_digits. simpl. induction a as [|c a IH]; [done|].
  simpl. destruct (is_digit c); [|done]. simpl. by rewrite IH.
Qed.

(** X15. Cleaning only deletes characters: the result is a subsequence of
    the text, so nothing is added, replaced or reordered. *)
Theorem cleaning_only_deletes s :
  list_ascii_of_string (clean_cnpj_digits (Some s))
    `sublist_of` list_ascii_of_string s.
Proof.
  unfold clean_cnpj_digits. simpl. induction s as [|a s IH]; [done|].
  simpl. destruct (is_digit a); simpl; by constructor.
Qed.

End CleanerProperties.

(** *** First occurrences *)

Lemma unique_fold_elem (seen l : list string) x :
  x ∈ foldl (λ seen x, if bool_decide (x ∈ seen) then seen else seen ++ [x])
        seen l
  ↔ x ∈ seen ∨ x ∈ l.
Proof.
  revert seen. induction l as [|y l IH]; intros seen; simpl.
  - rewrite elem_of_nil. tauto.
  - rewrite IH, elem_of_cons. case_bool_decide as Hy.
    + split; [tauto|]. intros [?|[->|?]]; auto.
    + rewrite elem_of_app, list_elem_of_singleton. tauto.
Qed.

Lemma unique_fold_NoDup (seen l : list string) :
  NoDup seen →
  NoDup (foldl (λ seen x, if bool_decide (x ∈ seen) then seen else seen ++ [x])
           seen l).
Proof.
  revert seen. induction l as [|y l IH]; intros seen Hnd; simpl; [done|].
  apply IH. case_bool_decide as Hy; [done|].
  apply NoDup_app. split; [done|]. split; [|apply NoDup_singleton].
  intros x Hx ->%list_elem_of_singleton. done.
Qed.

Lemma elem_of_unique (l : list string) x : x ∈ unique l ↔ x ∈ l.
Proof. unfold unique. rewrite unique_fold_elem, elem_of_nil. tauto. Qed.

Lemma NoDup_unique (l : list string) : NoDup (unique l).
Proof. apply unique_fold_NoDup, NoDup_nil_2. Qed.

Section SelectorProperties.

Variable strip : string → string.

Implicit Types (df : DataFrame) (m : dict) (k v c : string)
  (cs : list string).

Lemma add_cnpj_ok m c : selector_ok m → selector_ok (add_cnpj m c).
Proof.
  intros (Hhead & Hnd & Hall). unfold add_cnpj. cbv zeta.
  case_bool_decide as Hc; [done|]. repeat split.
  - by destruct m.
  - rewrite fmap_app. apply NoDup_app. split; [done|].
    split; [|apply NoDup_singleton].
    intros x Hx ->%list_elem_of_singleton. done.
  - apply Forall_app. split; [done|]. by constructor.
Qed.

Lemma add_cnpj_keys m cs k :
  k ∈ (foldl add_cnpj m cs).*1 ↔ k ∈ m.*1 ∨ k ∈ cs.
Proof.
  revert m. induction cs as [|c cs IH]; intros m; simpl.
  - rewrite elem_of_nil. tauto.
  - rewrite IH, elem_of_cons. unfold add_cnpj. cbv zeta.
    case_bool_decide as Hc.
    + split; [tauto|]. intros [?|[->|?]]; auto.
    + rewrite fmap_app, elem_of_app. simpl. rewrite list_elem_of_singleton.
      tauto.
Qed.

Lemma foldl_add_cnpj_ok m cs : selector_ok m → selector_ok (foldl add_cnpj m cs).
Proof.
  revert m. induction cs as [|c cs IH]; intros m Hm; [done|].
  simpl. by apply IH, add_cnpj_ok.
Qed.

Lemma cnpj_map_ok df : selector_ok (cnpj_map_of strip df).
Proof.
  assert (selector_ok [(placeholder, "")]) as H0.
  { repeat split; [apply NoDup_singleton|]. by repeat constructor. }
  unfold cnpj_map_of. case_bool_decide; [|done]. by apply foldl_add_cnpj_ok.
Qed.

Lemma dict_get_Some m k v : dict_get m k = Some v → (k, v) ∈ m.
Proof.
  induction m as [|[k' v'] m IH]; [done|]. simpl. case_bool_decide as Hk.
  - intros [= <-]. subst. by left.
  - intros H. right. by apply IH.
Qed.

Lemma dict_get_None m k : dict_get m k = None ↔ k ∉ m.*1.
Proof.
  induction m as [|[k' v'] m IH]; simpl.
  - split; [intros _; apply not_elem_of_nil|done].
  - rewrite not_elem_of_cons. case_bool_decide as Hk.
    + split; [done|]. by intros [? _].
    + rewrite IH. split; [by split|by intros [_ ?]].
Qed.

Lemma selector_get m k :
  selector_ok m →
  dict_get m k = if bool_decide (k ∈ m.*1)
                 then Some (clean_cnpj_digits (Some k)) else None.
Proof.
  intros (_ & _ & Hall). case_bool_decide as Hk.
  - destruct (dict_get m k) as [v|] eqn:Hget.
    + apply dict_get_Some in Hget. rewrite Forall_forall in Hall.
      apply Hall in Hget. simpl in Hget. by rewrite Hget.
    + by apply dict_get_None in Hget.
  - by apply dict_get_None.
Qed.

(** X16. The selector's map, whatever table it is built from: it opens
    with the placeholder, which stands for no identifier; no display text
    occurs twice among the options; and an ASCII display text is mapped to
    its own digits, an identifier made of ["0"] to ["9"] only. *)
Theorem selector_maps_text_to_its_digits df :
  head (cnpj_map_of strip df) = Some (placeholder, "")
  ∧ NoDup (cnpj_options_of strip df)
  ∧ ∀ k v, dict_get (cnpj_map_of strip df) k = Some v →
           is_ascii k = true →
           v = clean_cnpj_digits (Some k) ∧ digits_only v = true.
Proof.
  destruct (cnpj_map_ok df) as (Hhead & Hnd & Hall).
  split; [done|]. split; [done|]. intros k v Hget%dict_get_Some _.
  rewrite Forall_forall in Hall. apply Hall in Hget. simpl in Hget.
  split; [done|]. rewrite Hget. apply remove_non_digits_digits_only.
Qed.

(** X17. The options are the placeholder and the stripped texts of the
    non-null cells of the column ["CNPJ"], when the table has that column;
    nothing else is offered and none of these is left out. *)
Theorem options_are_the_stripped_cells df k :
  k ∈ cnpj_options_of strip df
  ↔ k = placeholder
    ∨ ("CNPJ" ∈ columns df
       ∧ ∃ r c, r ∈ rows df ∧ cells r !! "CNPJ" = Some c ∧ k = strip c).
Proof.
  unfold cnpj_options_of, cnpj_map_of. case_bool_decide as Hcol.
  - rewrite add_cnpj_keys. unfold cnpj_unique.
    change ([(placeholder, "")].*1) with [placeholder].
    rewrite elem_of_unique, list_elem_of_fmap, list_elem_of_singleton.
    apply or_iff_compat_l. split.
    + intros (c & -> & (r & Hr & Hc)%list_elem_of_omap). eauto 10.
    + intros (_ & r & c & Hr & Hc & ->). exists c. split; [done|].
      apply list_elem_of_omap. eauto.
  - change ([(placeholder, "")].*1) with [placeholder].
    rewrite list_elem_of_singleton. split; [auto|].
    by intros [?|[? _]].
Qed.

(** X18. Which ASCII selections reach the registry: a fetch is made
    exactly when the selected text is one of the options and has at least
    one digit, and it is made with the digits of that text; any other
    selection (the placeholder, a text without digits, a stale text that
    is no option) takes the [st.info] branch. *)
Theorem fetch_only_with_the_digits_of_an_option requests_get df display ui :
  is_ascii display = true →
  consulta_cnpj requests_get (cnpj_map_of strip df) display ui
  = if bool_decide (display ∈ cnpj_options_of strip df
                    ∧ clean_cnpj_digits (Some display) ≠ "")
    then Some (Registry.guarded_get_cnpj_data requests_get
                 (clean_cnpj_digits (Some display)) ui)
    else None.
Proof.
  intros _. unfold consulta_cnpj, cnpj_options_of. cbv zeta.
  rewrite (selector_get _ _ (cnpj_map_ok df)).
  case_bool_decide as Hk; simpl.
  - destruct (String.eqb_spec (clean_cnpj_digits (Some display)) "") as [He|Hne].
    + rewrite bool_decide_false; [done|]. by intros [_ ?].
    + by rewrite bool_decide_true.
  - rewrite bool_decide_false; [done|]. by intros [? _].
Qed.

End SelectorProperties.

(** * The loader, the file listing and the [Buscar] button *)

Section LoaderProperties.

Context {E : Type}.
Variable read_csv : string → result E DataFrame.
Variable path_name : string → string.

Implicit Types (files : list string) (frames dfs : list DataFrame).

Lemma read_files_ok files frames :
  Forall2 (λ f d, read_csv f = Ok d) files frames →
  read_files read_csv path_name files
  = Ok (zip_with (stamp path_name) files frames).
Proof.
  induction 1 as [|f d files frames Hf _ IH]; [done|].
  simpl. by rewrite Hf, IH.
Qed.

Lemma read_files_inv files dfs :
  read_files read_csv path_name files = Ok dfs →
  ∃ frames, Forall2 (λ f d, read_csv f = Ok d) files frames
    ∧ dfs = zip_with (stamp path_name) files frames.
Proof.
  revert dfs. induction files as [|f files IH]; intros dfs; simpl.
  - intros [= <-]. by exists [].
  - destruct (read_csv f) as [d|e] eqn:Hf; [|done].
    destruct (read_files _ _ files) as [dfs'|e]; [|done].
    intros [= <-]. destruct (IH _ eq_refl) as (frames & Hall & ->).
    exists (d :: frames). split; [by constructor|done].
Qed.

Lemma load_concat files dfs :
  read_files read_csv path_name files = Ok dfs →
  load_all_data read_csv path_name files = Ok (concat dfs).
Proof. unfold load_all_data. intros ->. by destruct dfs. Qed.

Lemma read_files_first_failure pre f post e :
  Forall (λ g, ∃ d, read_csv g = Ok d) pre →
  read_csv f = Raise e →
  read_files read_csv path_name (pre ++ f :: post) = Raise e.
Proof.
  intros Hpre Hf. induction Hpre as [|g pre [d Hg] _ IH]; simpl.
  - by rewrite Hf.
  - by rewrite Hg, IH.
Qed.

(** X19. No partial load: when a file cannot be read, the load raises the
    exception of the first such file, whatever the files after it. *)
Theorem load_raises_first_failure pre f post e :
  Forall (λ g, ∃ d, read_csv g = Ok d) pre →
  read_csv f = Raise e →
  load_all_data read_csv path_name (pre ++ f :: post) = Raise e.
Proof.
  intros Hpre Hf. unfold load_all_data.
  by rewrite (read_files_first_failure _ _ _ _ Hpre Hf).
Qed.

(** X20. The load returns a table exactly when every file can be read;
    with no file at all it returns the table without rows and columns. *)
Theorem load_succeeds_iff_all_readable files :
  ((∃ df, load_all_data read_csv path_name files = Ok df)
   ↔ Forall (λ g, ∃ d, read_csv g = Ok d) files)
  ∧ load_all_data read_csv path_name [] = Ok {| columns := []; rows := [] |}.
Proof.
  split; [|done]. split.
  - intros [df Hload]. unfold load_all_data in Hload.
    destruct (read_files _ _ files) as [dfs|e] eqn:Hread; [|done].
    apply read_files_inv in Hread as (frames & Hall & _).
    clear Hload. induction Hall; constructor; eauto.
  - intros Hall.
    assert (∃ frames, Forall2 (λ f d, read_csv f = Ok d) files frames)
      as [frames Hframes].
    { induction Hall as [|f files [d Hd] _ [frames IH]];
        [by exists []|exists (d :: frames); by constructor]. }
    exists (concat (zip_with (stamp path_name) files frames)).
    by apply load_concat, read_files_ok.
Qed.

Lemma stamped_cells files frames :
  cells <$> mjoin (rows <$> zip_with (stamp path_name) files frames)
  = mjoin (zip_with (λ f d, (λ r, <["_arquivo" := path_name f]> (cells r))
                              <$> rows d) files frames).
Proof.
  revert frames. induction files as [|f files IH]; intros [|d frames]; try done.
  simpl. rewrite fmap_app, IH, <-list_fmap_compose. done.
Qed.

Lemma stamped_length files frames :
  length files = length frames →
  length (mjoin (rows <$> zip_with (stamp path_name) files frames))
  = sum_list (len <$> frames).
Proof.
  revert frames. induction files as [|f files IH]; intros [|d frames]; try done.
  intros [= Hlen]. simpl. rewrite length_app, length_fmap, IH by done. done.
Qed.

(** X21. The rows of a load, when every file is read: they are numbered
    [0, 1, 2, ...], there are as many as in all files together, and they
    are the rows of the files in the order of the list, each with its own
    cells and, under ["_arquivo"], the name of its file. *)
Theorem loaded_rows_are_the_stamped_rows files frames :
  Forall2 (λ f d, read_csv f = Ok d) files frames →
  ∃ df, load_all_data read_csv path_name files = Ok df
    ∧ len df = sum_list (len <$> frames)
    ∧ label <$> rows df = seq 0 (len df)
    ∧ cells <$> rows df
      = mjoin (zip_with (λ f d, (λ r, <["_arquivo" := path_name f]> (cells r))
                                  <$> rows d) files frames).
Proof.
  intros Hall. exists (concat (zip_with (stamp path_name) files frames)).
  split; [by apply load_concat, read_files_ok|].
  assert (len (concat (zip_with (stamp path_name) files frames))
          = sum_list (len <$> frames)) as Hlen.
  { unfold len. simpl. rewrite length_imap.
    apply stamped_length. by apply Forall2_length in Hall. }
  split; [done|]. split.
  - unfold len. simpl. rewrite fmap_imap, length_imap.
    rewrite (imap_ext _ (λ j _, id j)) by done.
    by rewrite imap_seq_0, list_fmap_id.
  - simpl. rewrite fmap_imap.
    rewrite (imap_ext _ (const cells)) by done.
    rewrite imap_const. apply stamped_cells.
Qed.

Lemma stamp_columns f d c :
  c ∈ columns (stamp path_name f d) ↔ c ∈ columns d ∨ c = "_arquivo".
Proof.
  unfold stamp, set_column. simpl. case_bool_decide as Hin.
  - split; [auto|]. by intros [?| ->].
  - by rewrite elem_of_app, list_elem_of_singleton.
Qed.

Lemma stamped_columns files frames c :
  length files = length frames →
  c ∈ mjoin (columns <$> zip_with (stamp path_name) files frames)
  ↔ (files ≠ [] ∧ c = "_arquivo") ∨ ∃ d, d ∈ frames ∧ c ∈ columns d.
Proof.
  revert frames. induction files as [|f files IH]; intros [|d frames]; try done.
  - intros _. simpl. rewrite elem_of_nil. split; [done|].
    intros [[? _]|(d & Hd & _)]; [done|]. by apply elem_of_nil in Hd.
  - intros [= Hlen].
    change (c ∈ columns (stamp path_name f d)
                ++ mjoin (columns <$> zip_with (stamp path_name) files frames)
            ↔ (f :: files ≠ [] ∧ c = "_arquivo")
              ∨ ∃ d0, d0 ∈ d :: frames ∧ c ∈ columns d0).
    rewrite elem_of_app, stamp_columns, IH by done.
    split.
    + intros [[Hc| ->]|[[_ ->]|(d' & Hd' & Hc)]].
      * right. exists d. split; [by left|done].
      * by left.
      * by left.
      * right. exists d'. split; [by right|done].
    + intros [[_ ->]|(d' & Hd' & Hc)]; [by left; right|].
      apply elem_of_cons in Hd' as [->|Hd']; [by left; left|].
      right. right. eauto.
Qed.

(** X22. The columns of a load, when every file is read: every column of
    every file and, once there is a file, ["_arquivo"]; nothing else, and
    no column twice. *)
Theorem loaded_columns_are_the_union files frames :
  Forall2 (λ f d, read_csv f = Ok d) files frames →
  ∃ df, load_all_data read_csv path_name files = Ok df
    ∧ NoDup (columns df)
    ∧ ∀ c, c ∈ columns df
           ↔ (files ≠ [] ∧ c = "_arquivo") ∨ ∃ d, d ∈ frames ∧ c ∈ columns d.
Proof.
  intros Hall. exists (concat (zip_with (stamp path_name) files frames)).
  split; [by apply load_concat, read_files_ok|].
  simpl. split; [apply NoDup_unique|]. intros c.
  rewrite elem_of_unique. apply stamped_columns.
  by apply Forall2_length in Hall.
Qed.

End LoaderProperties.

Section FilesProperties.

Variable rglob : string → string → list string.
Variable is_file : string → bool.
Variable resolve : string → string.

(** X23. The extension may be written with or without its dot, and an
    empty extension is no extension: the listings are the same. *)
Theorem extension_dot_is_optional dir_path a e recursive :
  a ≠ "."%char →
  list_files rglob is_file resolve dir_path (Some (String a e)) recursive
    = list_files rglob is_file resolve dir_path
        (Some ("." +:+ String a e)) recursive
  ∧ list_files rglob is_file resolve dir_path (Some "") recursive
    = list_files rglob is_file resolve dir_path None recursive.
Proof.
  intros Ha. split; [|done]. unfold list_files, glob_pattern.
  rewrite (proj2 (Ascii.eqb_neq a ".")) by done. done.
Qed.

End FilesProperties.

Section BuscarProperties.

Variable lower : string → string.
Variable re_compile : string → option (string → bool).

Implicit Types (df R : DataFrame) (sel : string → list string).

Lemma sidebar_filtros_ignorable df sel :
  Forall (λ col, col ∈ columns df → sel col = []) colunas_filtro →
  Forall (λ e, is_empty_filter e.2 = true ∨ e.1 ∉ columns df)
    (sidebar_filtros df sel).
Proof.
  unfold sidebar_filtros. intros Hsel. apply Forall_fmap.
  eapply Forall_impl; [exact Hsel|]. intros col Hcol. simpl.
  case_bool_decide as Hin; [|by left]. left. by rewrite Hcol.
Qed.

(** X24. [Buscar] with nothing selected and no search column shows the
    whole table, without its ["_arquivo"] column; what is typed in a
    query box that is not shown plays no part. *)
Theorem buscar_without_selection_shows_all df sel typed_query radio_exact :
  Forall (λ col, col ∈ columns df → sel col = []) colunas_filtro →
  buscar lower re_compile df sel "" typed_query radio_exact
  = Ok (drop_column "_arquivo" df).
Proof.
  intros Hsel%sidebar_filtros_ignorable.
  pose proof (loop_no_applied lower false (sidebar_filtros df sel) df []
                (applied_columns_ignorable _ _ Hsel)) as He.
  rewrite loop_erase in He.
  assert (filter_data lower re_compile df (Some (sidebar_filtros df sel))
            None None true false
          = Ok {| returned := df; stdout := [] |}) as Hrun.
  { unfold filter_data. cbv zeta. cbn [default from_option id]. by rewrite He. }
  unfold buscar. cbv zeta. simpl (String.eqb _ _). cbv iota. by rewrite Hrun.
Qed.

(** X25. What [Buscar] hands to the page never carries the provenance
    column: the columns are those of the loaded table without
    ["_arquivo"], no row has a cell under that name, and there are no
    more rows than were loaded. *)
Theorem buscar_hides_provenance df sel col_drop typed_query radio_exact R :
  buscar lower re_compile df sel col_drop typed_query radio_exact = Ok R →
  columns R = filter (λ c, c ≠ "_arquivo") (columns df)
  ∧ ("_arquivo" ∉ columns R)
  ∧ Forall (λ r, cells r !! "_arquivo" = None) (rows R)
  ∧ len R ≤ len df.
Proof.
  unfold buscar. cbv zeta.
  destruct (filter_data _ _ _ _ _ _ _ _) as [o|e] eqn:Hrun; [|done].
  intros [= <-].
  assert (table_of (Ok o) = Ok (returned o)) as Ht by done.
  rewrite <-Hrun in Ht.
  apply run_rows in Ht as (Hcols & kept & Hsub & Hrows).
  simpl. rewrite Hcols. split; [done|]. split.
  - rewrite list_elem_of_filter. by intros [? _].
  - split.
    + apply Forall_fmap, Forall_forall. intros r _. simpl.
      apply lookup_delete_eq.
    + unfold len. simpl. rewrite length_fmap, Hrows, length_fmap.
      by apply sublist_length.
Qed.

Lemma string_leb_total : Total (λ a b : string, Is_true (String.leb a b)).
Proof.
  intros a b. destruct (String.leb_total a b) as [H|H]; rewrite H;
    [by left|by right].
Qed.

(** X26. The options a multiselect offers for a column are the distinct
    non-null values of that column, each once, in ascending order. *)
Theorem opcoes_are_the_column_values df col v :
  (v ∈ opcoes df col ↔ ∃ r, r ∈ rows df ∧ cells r !! col = Some v)
  ∧ NoDup (opcoes df col)
  ∧ Sorted (λ a b, String.leb a b) (opcoes df col).
Proof.
  unfold opcoes. split; [|split].
  - rewrite merge_sort_Permutation, elem_of_unique. apply list_elem_of_omap.
  - rewrite merge_sort_Permutation. apply NoDup_unique.
  - apply (@Sorted_merge_sort _ _ _ string_leb_total).
Qed.

(** X27. An offered option always finds something: filtering a column by
    a selection that contains one of its options returns at least one
    row. *)
Theorem offered_option_matches_a_row df col v vs exact_match debug :
  col ∈ columns df → v ∈ opcoes df col → v ∈ vs →
  ∃ R, table_of (filter_data lower re_compile df
                   (Some [(col, Coll (SStr <$> vs))]) None None
                   exact_match debug) = Ok R
    ∧ rows R ≠ [].
Proof.
  intros Hcol Hv Hvs. unfold opcoes in Hv.
  rewrite merge_sort_Permutation, elem_of_unique in Hv.
  apply list_elem_of_omap in Hv as (r & Hr & Hcell).
  exists (apply_filter lower col (Coll (SStr <$> vs)) df). split.
  - apply run_single; [|done]. by destruct vs as [|? ?]; [apply elem_of_nil in Hvs|].
  - rewrite (apply_filter_rows lower re_compile).
    intros Hnil%fmap_nil_inv.
    assert (r ∈ filter (λ r, lowercase_match lower (Coll (SStr <$> vs))
                               (cell_norm lower col r)) (rows df)) as Hin.
    { apply list_elem_of_filter. split; [|done]. simpl.
      unfold cell_norm. rewrite Hcell. simpl.
      apply list_elem_of_fmap. exists (SStr v). split; [done|].
      apply list_elem_of_fmap. eauto. }
    rewrite Hnil in Hin. by apply elem_of_nil in Hin.
Qed.

End BuscarProperties.

(** * Further properties of the registry client *)

Section MoreRegistryProperties.

Import Registry.

Variable requests_get : string → result py_exception response.

Implicit Types (cnpj : string) (ui : list ui_event).

Local Ltac unfold_M :=
  unfold guarded_get_cnpj_data, get_cnpj_data, try_except, resp_json, error,
    mbind, M_bind, mret, M_ret, bind, ret, raise, lift.

(** X28. A 200 answer with a JSON body is handed on as it is, with or
    without the guard, and nothing is written to the page. *)
Theorem success_passes_the_record_through cnpj ui j :
  requests_get (url_of cnpj) = Ok {| status_code := 200; body := Some j |} →
  get_cnpj_data requests_get cnpj ui = (Ok j, ui)
  ∧ guarded_get_cnpj_data requests_get cnpj ui = (Ok j, ui).
Proof. intros H. unfold_M. by rewrite H. Qed.

(** X29. Without its guard [get_cnpj_data] raises: a transport failure of
    [requests.get] comes out as it is, and so does the decoding failure of
    a 200 answer whose body is not JSON; under the guard that second case
    too ends in the empty record and one message. *)
Theorem unguarded_fetch_raises cnpj ui :
  (∀ e, requests_get (url_of cnpj) = Raise e →
        get_cnpj_data requests_get cnpj ui = (Raise e, ui))
  ∧ (requests_get (url_of cnpj) = Ok {| status_code := 200; body := None |} →
     get_cnpj_data requests_get cnpj ui = (Raise JSONDecodeError, ui)
     ∧ guarded_get_cnpj_data requests_get cnpj ui
       = (Ok empty_record, ui ++ [st_error (erro_brasilapi JSONDecodeError)])).
Proof. split; [intros e H|intros H]; unfold_M; by rewrite H. Qed.

(** X30. The guarded fetch writes at most one message, after the ones
    already on the page, and only when it hands back the empty record. *)
Theorem guard_writes_at_most_one_message cnpj ui :
  ∃ dados ui', guarded_get_cnpj_data requests_get cnpj ui = (Ok dados, ui')
    ∧ (ui' = ui ∨ (dados = empty_record ∧ ∃ msg, ui' = ui ++ [st_error msg])).
Proof.
  unfold_M. destruct (requests_get (url_of cnpj)) as [resp|e].
  - destruct (Nat.eqb (status_code resp) 200).
    + destruct (body resp); simpl; eauto 10.
    + simpl. eauto 10.
  - simpl. eauto 10.
Qed.

End MoreRegistryProperties.

(** ** Instances of the further theorems *)

Section MoreExamples.

Lemma result_keeps_columns_and_shrinks_witness :
  columns people_sp = columns people ∧ len people_sp ≤ len people.
Proof.
  apply (result_keeps_columns_and_shrinks ascii_lower literal_re people
           (Some [("UF", Coll [SStr "SP"])]) None None true false people_sp).
  reflexivity.
Defined.

Lemma unique_labels_stay_unique_witness : NoDup (label <$> rows people_sp).
Proof.
  apply (unique_labels_stay_unique ascii_lower literal_re people
           (Some [("UF", Coll [SStr "SP"])]) None None true false people_sp).
  - reflexivity.
  - by apply (bool_decide_unpack _).
Defined.

Lemma debug_only_prints_witness :
  table_of (filter_data ascii_lower literal_re people
              (Some [("UF", Coll [SStr "SP"])]) None None true true)
  = table_of (filter_data ascii_lower literal_re people
                (Some [("UF", Coll [SStr "SP"])]) None None true false)
  ∧ stdout {| returned := people_sp; stdout := [] |} = [].
Proof.
  destruct (debug_only_prints ascii_lower literal_re people
              (Some [("UF", Coll [SStr "SP"])]) None None true true false)
    as [H1 H2].
  split; [exact H1|]. apply H2. reflexivity.
Defined.

Lemma filters_act_as_conjunction_witness :
  ∃ R, table_of (filter_data ascii_lower literal_re staff
                   (Some [("SETOR", Coll [SStr "rh"]); ("SIT", Scalar (SStr "ATIVO"))])
                   None None true false) = Ok R
    ∧ columns R = columns staff
    ∧ Forall2 (λ r' r,
        label r' = label r
        ∧ ∀ c,
            (c ∉ ["SETOR"; "SIT"] → cells r' !! c = cells r !! c)
            ∧ (c ∈ ["SETOR"; "SIT"] →
               ∀ x, cells r !! c = Some x → cells r' !! c = Some (ascii_lower x)))
        (rows R)
        [row 0 [("SETOR", "RH"); ("SIT", "Ativo")]].
Proof.
  apply (filters_act_as_conjunction ascii_lower literal_re staff
           [("SETOR", Coll [SStr "rh"]); ("SIT", Scalar (SStr "ATIVO"))]
           true false).
  - by apply (bool_decide_unpack _).
  - intros r e Hr He _ _.
    repeat (apply elem_of_cons in Hr as [->|Hr]);
      try (by apply elem_of_nil in Hr);
      repeat (apply elem_of_cons in He as [->|He]);
      try (by apply elem_of_nil in He); by eexists.
Defined.

Lemma entry_order_is_immaterial_witness :
  table_of (filter_data ascii_lower literal_re people
              (Some [("UF", Coll [SStr "SP"]); ("NOME", Scalar (SStr "ANA"))])
              None None true false)
  = table_of (filter_data ascii_lower literal_re people
                (Some [("NOME", Scalar (SStr "ANA")); ("UF", Coll [SStr "SP"])])
                None None true false).
Proof.
  apply (entry_order_is_immaterial ascii_lower literal_re people).
  - by apply (bool_decide_unpack _).
  - apply perm_swap.
Defined.

Lemma all_ignorable_filters_nothing_witness :
  table_of (filter_data ascii_lower literal_re people
              (Some [("UF", Coll []); ("CIDADE", Scalar (SStr "Recife"))])
              (Some "NOME") (Some "ana") true false)
  = table_of (filter_data ascii_lower literal_re people None
                (Some "NOME") (Some "ana") true false).
Proof.
  apply (all_ignorable_filters_nothing ascii_lower literal_re people).
  apply Forall_cons; split; [by left|].
  apply Forall_cons; split; [|apply Forall_nil_2].
  right. simpl. intros H.
  repeat (apply elem_of_cons in H as [H|H]; [discriminate|]).
  by apply elem_of_nil in H.
Defined.

Lemma debug_trace_is_faithful_witness :
  well_traced (len nobody) [(initial, 0); (after_search "NOME", 0)] 0
  ∧ stdout {| returned := {| columns := ["NOME"; "UF"]; rows := [] |};
              stdout := [] |} = [].
Proof.
  split.
  - destruct (debug_trace_is_faithful ascii_lower literal_re nobody (Some [])
                (Some "NOME") (Some "ana") true
                {| returned := nobody;
                   stdout := [(initial, 0); (after_search "NOME", 0)] |}
                eq_refl) as (F & _ & _ & _ & Hlate).
    apply Hlate. reflexivity.
  - destruct (debug_trace_is_faithful ascii_lower literal_re people
                (Some [("UF", Scalar (SStr "AM"))]) None None true
                {| returned := {| columns := ["NOME"; "UF"]; rows := [] |};
                   stdout := [] |}
                eq_refl) as (F & _ & _ & Hearly & _).
    apply Hearly. reflexivity.
Defined.

Lemma search_query_case_is_immaterial_witness :
  filter_data ascii_lower literal_re people None (Some "NOME") (Some "ANA")
    false false
  = filter_data ascii_lower literal_re people None (Some "NOME") (Some "ana")
      false false.
Proof.
  apply (search_query_case_is_immaterial ascii_lower literal_re);
    [reflexivity|discriminate|discriminate].
Defined.

Lemma exact_search_keeps_lowercase_equal_witness :
  ∃ R, table_of (filter_data ascii_lower literal_re staff None
                   (Some "SETOR") (Some "Rh") true false) = Ok R
    ∧ columns R = columns staff
    ∧ Forall2 (λ r' r,
        label r' = label r
        ∧ cells r' !! "SETOR" = ascii_lower <$> cells r !! "SETOR"
        ∧ ∀ c, c ≠ "SETOR" → cells r' !! c = cells r !! c)
        (rows R)
        [row 0 [("SETOR", "RH"); ("SIT", "Ativo")];
         row 2 [("SETOR", "RH"); ("SIT", "Inativo")]].
Proof.
  apply (exact_search_keeps_lowercase_equal ascii_lower literal_re staff
           "SETOR" "Rh" false); [left|discriminate|discriminate|].
  intros r Hr.
  repeat (apply elem_of_cons in Hr as [->|Hr]);
    try (by apply elem_of_nil in Hr); by eexists.
Defined.

Lemma cleaned_is_digits_only_witness :
  digits_only (clean_cnpj_digits (Some "12.345.678/0001-95")) = true.
Proof.
  apply (cleaned_is_digits_only (Some "12.345.678/0001-95")). reflexivity.
Defined.

Lemma cleaning_fixes_exactly_digit_texts_witness :
  (clean_cnpj_digits (Some "12345678000195") = "12345678000195"
   ↔ digits_only "12345678000195" = true)
  ∧ clean_cnpj_digits (Some (clean_cnpj_digits (Some "12.345.678/0001-95")))
    = clean_cnpj_digits (Some "12.345.678/0001-95").
Proof.
  destruct (cleaning_fixes_exactly_digit_texts "12345678000195"
              (Some "12.345.678/0001-95")) as [H1 H2].
  split; [apply H1; reflexivity|exact H2].
Defined.

Lemma fetch_only_with_the_digits_of_an_option_witness :
  consulta_cnpj found (cnpj_map_of id setor_a) "12.345.678/0001-95" []
    = Some (Registry.guarded_get_cnpj_data found "12345678000195" [])
  ∧ consulta_cnpj found (cnpj_map_of id setor_a) placeholder [] = None.
Proof.
  split.
  - apply (fetch_only_with_the_digits_of_an_option id found setor_a
             "12.345.678/0001-95" []).
    reflexivity.
  - apply (fetch_only_with_the_digits_of_an_option id found setor_a
             placeholder []).
    reflexivity.
Defined.

Lemma selector_maps_text_to_its_digits_witness :
  "12345678000195" = clean_cnpj_digits (Some "12.345.678/0001-95")
  ∧ digits_only "12345678000195" = true.
Proof.
  apply (proj2 (proj2 (selector_maps_text_to_its_digits id setor_a))
           "12.345.678/0001-95" "12345678000195"); reflexivity.
Defined.

Lemma load_raises_first_failure_witness :
  load_all_data disk id (["a.csv"] ++ "c.csv" :: ["b.csv"])
  = Raise "No such file: c.csv".
Proof.
  apply (load_raises_first_failure disk id ["a.csv"] "c.csv" ["b.csv"]).
  - repeat constructor. by exists setor_a.
  - reflexivity.
Defined.

Lemma loaded_rows_are_the_stamped_rows_witness :
  ∃ df, load_all_data disk id ["a.csv"; "b.csv"] = Ok df
    ∧ len df = sum_list (len <$> [setor_a; setor_b])
    ∧ label <$> rows df = seq 0 (len df)
    ∧ cells <$> rows df
      = mjoin (zip_with (λ f d, (λ r, <["_arquivo" := id f]> (cells r))
                                  <$> rows d)
                 ["a.csv"; "b.csv"] [setor_a; setor_b]).
Proof.
  apply (loaded_rows_are_the_stamped_rows disk id).
  repeat constructor.
Defined.

Lemma loaded_columns_are_the_union_witness :
  ∃ df, load_all_data disk id ["a.csv"; "b.csv"] = Ok df
    ∧ NoDup (columns df)
    ∧ ∀ c, c ∈ columns df
           ↔ (["a.csv"; "b.csv"] ≠ [] ∧ c = "_arquivo")
             ∨ ∃ d, d ∈ [setor_a; setor_b] ∧ c ∈ columns d.
Proof.
  apply (loaded_columns_are_the_union disk id).
  repeat constructor.
Defined.

Lemma extension_dot_is_optional_witness :
  list_files pasta (λ _, true) id "Arquivos" (Some "csv") true
    = list_files pasta (λ _, true) id "Arquivos" (Some ".csv") true
  ∧ list_files pasta (λ _, true) id "Arquivos" (Some "") true
    = list_files pasta (λ _, true) id "Arquivos" None true.
Proof.
  apply (extension_dot_is_optional pasta (λ _, true) id "Arquivos" "c" "sv" true).
  discriminate.
Defined.

Lemma buscar_without_selection_shows_all_witness :
  buscar ascii_lower literal_re people (λ _, []) "" "ana" false
  = Ok (drop_column "_arquivo" people).
Proof.
  apply (buscar_without_selection_shows_all ascii_lower literal_re people).
  repeat constructor.
Defined.

Lemma buscar_hides_provenance_witness :
  columns (drop_column "_arquivo" people_sp)
    = filter (λ c, c ≠ "_arquivo") (columns people)
  ∧ ("_arquivo" ∉ columns (drop_column "_arquivo" people_sp))
  ∧ Forall (λ r, cells r !! "_arquivo" = None)
      (rows (drop_column "_arquivo" people_sp))
  ∧ len (drop_column "_arquivo" people_sp) ≤ len people.
Proof.
  apply (buscar_hides_provenance ascii_lower literal_re people
           (λ _, []) "UF" "sp" true).
  reflexivity.
Defined.

Lemma offered_option_matches_a_row_witness :
  ∃ R, table_of (filter_data ascii_lower literal_re people
                   (Some [("UF", Coll (SStr <$> ["RJ"; "MG"]))]) None None
                   true false) = Ok R
    ∧ rows R ≠ [].
Proof.
  apply (offered_option_matches_a_row ascii_lower literal_re people "UF" "RJ").
  - right. left.
  - by apply (bool_decide_unpack _).
  - left.
Defined.

Lemma success_passes_the_record_through_witness :
  Registry.get_cnpj_data found "12345678000195" []
    = (Ok (Registry.JObj [("porte", Registry.JStr "DEMAIS")]), [])
  ∧ Registry.guarded_get_cnpj_data found "12345678000195" []
    = (Ok (Registry.JObj [("porte", Registry.JStr "DEMAIS")]), []).
Proof.
  apply (success_passes_the_record_through found "12345678000195" []).
  reflexivity.
Defined.

Lemma unguarded_fetch_raises_witness :
  Registry.get_cnpj_data offline "12345678000195" []
    = (Raise Registry.Timeout, [])
  ∧ Registry.get_cnpj_data garbled "12345678000195" []
    = (Raise Registry.JSONDecodeError, [])
  ∧ Registry.guarded_get_cnpj_data garbled "12345678000195" []
    = (Ok Registry.empty_record,
       [Registry.st_error (Registry.erro_brasilapi Registry.JSONDecodeError)]).
Proof.
  split.
  - apply (proj1 (unguarded_fetch_raises offline "12345678000195" [])
             Registry.Timeout).
    reflexivity.
  - apply (proj2 (unguarded_fetch_raises garbled "12345678000195" [])).
    reflexivity.
Defined.

End MoreExamples.
